(** * ceph.automation: the [ceph_crush_rule] module

    A shallow embedding of [plugins/modules/ceph_crush_rule.py]: the rule
    inspector [need_changes], the CRUSH map text editor [patch_content] and
    the command sequencing of [decompile_crushmap], [install_crushmap] and
    [main], together with the properties the specification states about
    them. *)

From Stdlib Require Import String Ascii.
From Stdlib Require Import List NArith ZArith Lia Bool.
Import ListNotations.

Set Implicit Arguments.

(** ** Python values used by the module *)

(** A Python [str] is a sequence of Unicode code points. *)
Definition char := N.
Definition str := list char.

(** A string literal of the source (ASCII only in this module). *)
Definition lit (s : string) : str :=
  map N_of_ascii (list_ascii_of_string s).

Definition LF : char := 10%N.
Definition CR : char := 13%N.

Fixpoint str_eqb (a b : str) : bool :=
  match a, b with
  | [], [] => true
  | x :: a', y :: b' => N.eqb x y && str_eqb a' b'
  | _, _ => false
  end.

(** [None] or a [str]: the value of an optional module parameter. *)
Definition opt_eqb (a b : option str) : bool :=
  match a, b with
  | None, None => true
  | Some x, Some y => str_eqb x y
  | _, _ => false
  end.

(** Truthiness of an optional string: [None] and [''] are falsy. *)
Definition truthy (o : option str) : bool :=
  match o with
  | Some (_ :: _) => true
  | _ => false
  end.

(** ['{}'.format(x)] for [x] a [str] or [None]. *)
Definition format_opt (o : option str) : str :=
  match o with
  | Some s => s
  | None => lit "None"
  end.

(** Exceptions the module can raise. *)
Inductive exn :=
| TypeError
| KeyError
| AttributeError
| IndexError
| JSONDecodeError
| OSError.

Inductive result (A : Type) :=
| Ok (a : A)
| Raise (e : exn).
Arguments Ok {A} a.
Arguments Raise {A} e.

Definition rbind {A B} (m : result A) (f : A -> result B) : result B :=
  match m with
  | Ok a => f a
  | Raise e => Raise e
  end.

Declare Scope result_scope.
Delimit Scope result_scope with result.
Notation "x <- m ;; k" := (rbind m (fun x => k))
  (at level 100, m at next level, right associativity) : result_scope.

(** ** String methods *)

(** [s.startswith(prefix)] *)
Fixpoint startswith (s prefix : str) {struct prefix} : bool :=
  match prefix with
  | [] => true
  | c :: prefix' =>
      match s with
      | [] => false
      | d :: s' => N.eqb d c && startswith s' prefix'
      end
  end.

(** [s.replace(old, new)] for a non-empty [old]: every non-overlapping
    occurrence, scanning from the left.  [skip] counts the characters of the
    occurrence found last that are still to be passed over. *)
Fixpoint replace_from (skip : nat) (s old new : str) : str :=
  match s with
  | [] => []
  | c :: s' =>
      match skip with
      | S k => replace_from k s' old new
      | O =>
          if startswith s old
          then new ++ replace_from (length old - 1) s' old new
          else c :: replace_from 0 s' old new
      end
  end.

(** [s.replace(old, new)]; an empty [old] matches between all characters. *)
Definition replace (s old new : str) : str :=
  match old with
  | [] => new ++ flat_map (fun c => c :: new) s
  | _ :: _ => replace_from 0 s old new
  end.

(** The line boundaries of [str.splitlines]. *)
Definition is_linebreak (c : char) : bool :=
  (N.eqb c 10 || N.eqb c 13 || N.eqb c 11 || N.eqb c 12 ||
   N.eqb c 28 || N.eqb c 29 || N.eqb c 30 || N.eqb c 133 ||
   N.eqb c 8232 || N.eqb c 8233)%N.

(** [s.splitlines()]: the lines without their terminators; ["\r\n"] is one
    boundary, and a final terminator opens no further line. *)
Fixpoint splitlines (s : str) : list str :=
  match s with
  | [] => []
  | c :: s' =>
      if is_linebreak c then
        match s' with
        | d :: s'' =>
            if N.eqb c CR && N.eqb d LF
            then [] :: splitlines s''
            else [] :: splitlines s'
        | [] => [] :: splitlines s'
        end
      else
        match splitlines s' with
        | [] => [[c]]
        | l :: ls => (c :: l) :: ls
        end
  end.

(** [sep.join(ls)] *)
Fixpoint join (sep : str) (ls : list str) : str :=
  match ls with
  | [] => []
  | l :: ls' =>
      match ls' with
      | [] => l
      | _ :: _ => l ++ sep ++ join sep ls'
      end
  end.

(** [s.split(sep)] for a one-character [sep]: never an empty list. *)
Fixpoint split (s : str) (sep : char) : list str :=
  match s with
  | [] => [[]]
  | c :: s' =>
      if N.eqb c sep then [] :: split s' sep
      else
        match split s' sep with
        | [] => [[c]]
        | p :: ps => (c :: p) :: ps
        end
  end.

Fixpoint dropwhile (f : char -> bool) (s : str) : str :=
  match s with
  | [] => []
  | c :: s' => if f c then dropwhile f s' else s
  end.

(** [s.rstrip(chars)] *)
Definition rstrip (s chars : str) : str :=
  rev (dropwhile (fun c => existsb (N.eqb c) chars) (rev s)).

(** [os.path.join(a, b)] on POSIX. *)
Definition path_join (a b : str) : str :=
  if startswith b (lit "/") then b
  else match rev a with
       | [] => b
       | c :: _ => if N.eqb c 47 then a ++ b else a ++ lit "/" ++ b
       end.

(** ** Regular expressions

    The fragment of Python's [re] the module's two patterns are written in,
    with [re]'s backtracking search order: a repetition is greedy and gives
    characters back one at a time, an optional part is tried before it is
    skipped, and the first way to match the whole pattern wins. *)

(** [\s] on a [str] pattern: the characters for which [str.isspace] holds. *)
Definition is_space (c : char) : bool :=
  ((9 <=? c) && (c <=? 13) || (28 <=? c) && (c <=? 32) ||
   N.eqb c 133 || N.eqb c 160 || N.eqb c 5760 ||
   (8192 <=? c) && (c <=? 8202) || N.eqb c 8232 || N.eqb c 8233 ||
   N.eqb c 8239 || N.eqb c 8287 || N.eqb c 12288)%N.

(** [\S] *)
Definition non_space (c : char) : bool := negb (is_space c).

Inductive regex :=
| Bol                               (* ^ *)
| Eol                               (* $ *)
| Lit (s : str)                     (* literal text *)
| Star (cls : char -> bool)         (* c*  for a character class c *)
| Plus (cls : char -> bool)         (* c+ *)
| Seq (r1 r2 : regex)               (* r1 r2 *)
| Opt (r : regex)                   (* r? *)
| Group (n : nat) (r : regex).      (* ( r ), the n-th group *)

(** The groups that took part in a match, latest first. *)
Definition captures := list (nat * str).

(** What is left to match: called with the position reached, the text from
    there on and the groups captured so far. *)
Definition cont := nat -> str -> captures -> option captures.

Fixpoint run_star (cls : char -> bool) (k : cont)
    (pos : nat) (s : str) (c : captures) : option captures :=
  match s with
  | x :: s' =>
      if cls x then
        match run_star cls k (S pos) s' c with
        | Some m => Some m
        | None => k pos s c
        end
      else k pos s c
  | [] => k pos s c
  end.

Fixpoint run (r : regex) (k : cont)
    (pos : nat) (s : str) (c : captures) : option captures :=
  match r with
  | Bol => if Nat.eqb pos 0 then k pos s c else None
  | Eol =>
      (* the end of the text, or just before a newline that ends it *)
      match s with
      | [] => k pos s c
      | [x] => if N.eqb x LF then k pos s c else None
      | _ => None
      end
  | Lit l =>
      if startswith s l
      then k (pos + length l) (skipn (length l) s) c
      else None
  | Star cls => run_star cls k pos s c
  | Plus cls =>
      match s with
      | x :: s' => if cls x then run_star cls k (S pos) s' c else None
      | [] => None
      end
  | Seq r1 r2 => run r1 (run r2 k) pos s c
  | Opt r' =>
      match run r' k pos s c with
      | Some m => Some m
      | None => k pos s c
      end
  | Group n r' =>
      run r' (fun pos' s' c' => k pos' s' ((n, firstn (pos' - pos) s) :: c'))
          pos s c
  end.

(** [pattern.match(s)]: anchored at the start, the end is free. *)
Definition re_match (r : regex) (s : str) : option captures :=
  run r (fun _ _ c => Some c) 0 s [].

(** [m.group(n)]: [None] when the group took no part in the match. *)
Fixpoint group (m : captures) (n : nat) : option str :=
  match m with
  | [] => None
  | (i, s) :: m' => if Nat.eqb i n then Some s else group m' n
  end.

Fixpoint seq_of (rs : list regex) : regex :=
  match rs with
  | [] => Lit []
  | [r] => r
  | r :: rs' => Seq r (seq_of rs')
  end.

(** [re.compile(r'^\s*step take (\S+)( class (\S+))?$')] *)
Definition reg_bucket_root : regex :=
  seq_of [Bol; Star is_space; Lit (lit "step take ");
          Group 1 (Plus non_space);
          Opt (Group 2 (Seq (Lit (lit " class ")) (Group 3 (Plus non_space))));
          Eol].

(** [re.compile(r'^\s*step chooseleaf firstn 0 type (\S+)$')] *)
Definition reg_failure_domain : regex :=
  seq_of [Bol; Star is_space; Lit (lit "step chooseleaf firstn 0 type ");
          Group 1 (Plus non_space);
          Eol].

(** ** The module's parameters *)

(** [module.params] and [module.check_mode].  [name] is required and
    [state] has a default, so both are strings; the others are [None] when
    the playbook does not give them. *)
Record params := {
  name : str;
  state : str;
  rule_type : option str;
  bucket_root : option str;
  bucket_type : option str;
  device_class : option str;
  profile : option str;
  check_mode : bool
}.

(** ** [patch_content] *)

(** [s.replace(old, new)] where [old] or [new] may be [None]. *)
Definition replace_opt (s : str) (old new : option str) : result str :=
  match old, new with
  | Some o, Some n => Ok (replace s o n)
  | _, _ => Raise TypeError
  end.

(** The body of the loop for one line inside the rule block. *)
Definition patch_line (p : params) (line : str) : result str :=
  match re_match reg_bucket_root line with
  | Some root_match =>
      let exist_root := group root_match 1 in
      (cur <- replace_opt line exist_root (bucket_root p) ;;
       if truthy (device_class p) &&
          match group root_match 3 with None => true | Some _ => false end
       then Ok (cur ++ lit " class " ++ format_opt (device_class p))
       else if match device_class p with None => true | Some _ => false end &&
               truthy (group root_match 3)
       then replace_opt cur (group root_match 2) (Some [])
       else if truthy (device_class p) && truthy (group root_match 3)
       then replace_opt cur (group root_match 3) (device_class p)
       else Ok cur)%result
  | None =>
      match re_match reg_failure_domain line with
      | Some domain_match =>
          replace_opt line (group domain_match 1) (bucket_type p)
      | None => Ok line
      end
  end.

(** ['rule {}'.format(rule_name)] *)
Definition rule_prefix (rule_name : str) : str := lit "rule " ++ rule_name.

(** The loop [for i in range(len(crushmap))].  Iteration [i] reads and
    writes [crushmap[i]] only, so the loop is a pass over the lines that
    carries [inside_rule_block]; at [break] the lines that are left stay as
    they are. *)
Fixpoint patch_lines (p : params) (inside_rule_block : bool)
    (crushmap : list str) : result (list str) :=
  match crushmap with
  | [] => Ok []
  | line :: rest =>
      if startswith line (rule_prefix (name p)) then
        (rest' <- patch_lines p true rest ;; Ok (line :: rest'))%result
      else if inside_rule_block && startswith line (lit "}") then
        Ok (line :: rest)
      else if inside_rule_block then
        (line' <- patch_line p line ;;
         rest' <- patch_lines p inside_rule_block rest ;;
         Ok (line' :: rest'))%result
      else
        (rest' <- patch_lines p inside_rule_block rest ;;
         Ok (line :: rest'))%result
  end.

Definition patch_content (p : params) (crushmap_content : str) : result str :=
  (crushmap <- patch_lines p false (splitlines crushmap_content) ;;
   Ok (join [LF] crushmap))%result.

(** ** The rule as [json.loads] returns it *)

(** The values [json.loads] builds: [None], [bool], [int], [str], [list]
    and [dict] with string keys, a [dict] as its list of items with distinct
    keys.  (JSON numbers with a fraction do not occur in a rule dump.) *)
#[warnings="-register-all"]
Inductive json :=
| JNull
| JBool (b : bool)
| JInt (z : Z)
| JStr (s : str)
| JList (l : list json)
| JDict (d : list (str * json)).

Fixpoint lookup (d : list (str * json)) (k : str) : option json :=
  match d with
  | [] => None
  | (k', v) :: d' => if str_eqb k' k then Some v else lookup d' k
  end.

(** [v[k]] for a string [k]: only a [dict] can be indexed by a string. *)
Definition getitem (v : json) (k : str) : result json :=
  match v with
  | JDict d =>
      match lookup d k with
      | Some x => Ok x
      | None => Raise KeyError
      end
  | _ => Raise TypeError
  end.

(** The values [for x in v] goes through: the elements of a [list], the
    keys of a [dict], the characters of a [str]. *)
Definition iterate (v : json) : result (list json) :=
  match v with
  | JList l => Ok l
  | JDict d => Ok (map (fun kv => JStr (fst kv)) d)
  | JStr s => Ok (map (fun c => JStr [c]) s)
  | _ => Raise TypeError
  end.

(** [v == s] for a string [s] *)
Definition json_eq_str (v : json) (s : str) : bool :=
  match v with
  | JStr t => str_eqb t s
  | _ => false
  end.

(** [v == o] for [o] a string or [None] *)
Definition json_eq_opt (v : json) (o : option str) : bool :=
  match v, o with
  | JStr t, Some s => str_eqb t s
  | JNull, None => true
  | _, _ => false
  end.

(** [v.split('~')] *)
Definition json_split (v : json) (sep : char) : result (list str) :=
  match v with
  | JStr s => Ok (split s sep)
  | _ => Raise AttributeError
  end.

Definition tilde : char := 126%N.

(** ** [need_changes] *)

(** The loop [for step in rule['steps']]. *)
Fixpoint need_changes_steps (p : params) (steps : list json) : result bool :=
  match steps with
  | [] => Ok false
  | step :: rest =>
      (op <- getitem step (lit "op") ;;
       if json_eq_str op (lit "take") then
         root_string <- getitem step (lit "item_name") ;;
         exist_bucket_root <- json_split root_string tilde ;;
         match exist_bucket_root with
         | [] => Raise IndexError
         | exist_root :: _ =>
             let exist_class :=
               if Nat.ltb 1 (length exist_bucket_root)
               then nth_error exist_bucket_root 1
               else None in
             if negb (opt_eqb (Some exist_root) (bucket_root p)) ||
                negb (opt_eqb exist_class (device_class p))
             then Ok true
             else need_changes_steps p rest
         end
       else if json_eq_str op (lit "chooseleaf_firstn") then
         ty <- getitem step (lit "type") ;;
         if negb (json_eq_opt ty (bucket_type p))
         then Ok true
         else need_changes_steps p rest
       else need_changes_steps p rest)%result
  end.

Definition need_changes (p : params) (rule : json) : result bool :=
  (steps_value <- getitem rule (lit "steps") ;;
   steps <- iterate steps_value ;;
   need_changes_steps p steps)%result.

(** ** Commands and the module's exit *)

(** An element of a command line: a [str], or [None] where a parameter the
    playbook did not give is put into the list. *)
Definition arg := option str.
Definition command := list arg.

Definition args (l : list string) : command := map (fun s => Some (lit s)) l.

(** The dictionary handed to [exit_json] ([start], [end] and [delta] are
    wall-clock times and left out). *)
Record exit_result := {
  r_cmd : option command;
  r_rc : Z;
  r_stdout : str;
  r_stderr : str;
  r_changed : bool
}.

(** How a run of the module ends. *)
Inductive outcome :=
| ExitJson (r : exit_result)                       (* module.exit_json *)
| FailJson (msg : str) (changed : bool) (rc : Z)   (* module.fail_json *)
| Uncaught (e : exn).                              (* a traceback *)

(** [RULE_TYPES[v]]: the keys are the integers 1 and 3 ([True] is equal to
    1 and hashes alike); a [list] or [dict] cannot be hashed. *)
Definition RULE_TYPES (v : json) : result str :=
  match v with
  | JInt 1 => Ok (lit "replicated")
  | JInt 3 => Ok (lit "erasure")
  | JBool true => Ok (lit "replicated")
  | JList _ => Raise TypeError
  | JDict _ => Raise TypeError
  | _ => Raise KeyError
  end.

(** The local variables [rc], [cmd], [out], [err] and [changed] of [main]. *)
Record locals := {
  rc : Z;
  cmd : command;
  out : str;
  err : str;
  changed : bool
}.

(** The cluster and the file system the module acts on, with state [W], and
    the collaborators that are not part of this module. *)
Record collaborators (W : Type) := {
  (** [module.run_command(cmd)]: exit code, standard output, standard
      error. *)
  run_command : command -> W -> (Z * str * str) * W;
  (** [tempfile.TemporaryDirectory()]: the name of a fresh directory. *)
  mkdtemp : W -> str * W;
  (** Leaving the [with] block removes the directory. *)
  cleanup : str -> W -> W;
  (** [open(path).read()] and [open(path, 'w').write(text)]; [None] when
      the file cannot be opened. *)
  read_text : str -> W -> option str;
  write_text : str -> str -> W -> option W;
  (** [ceph_common.build_base_cmd_shell(module)] *)
  build_base_cmd_shell : params -> command;
  (** [json.loads] *)
  json_loads : str -> result json
}.

(** The state of a run: the world and the commands executed so far, oldest
    first. *)
Record run_state (W : Type) := {
  world : W;
  trace : list command
}.

Section Module.

Variable W : Type.
Variable C : collaborators W.

(** A computation either goes on with a value or has ended the run. *)
Definition M (A : Type) : Type :=
  run_state W -> (A + outcome) * run_state W.

Definition ret {A} (a : A) : M A := fun st => (inl a, st).

Definition bind {A B} (m : M A) (f : A -> M B) : M B :=
  fun st =>
    match m st with
    | (inl a, st') => f a st'
    | (inr o, st') => (inr o, st')
    end.

Definition finish {A} (o : outcome) : M A := fun st => (inr o, st).

(** A pure computation that may raise; nothing catches the exception. *)
Definition lift {A} (r : result A) : M A :=
  match r with
  | Ok a => ret a
  | Raise e => finish (Uncaught e)
  end.

Declare Scope run_scope.
Delimit Scope run_scope with run.
Notation "x <- m ;; k" := (bind m (fun x => k))
  (at level 100, m at next level, right associativity) : run_scope.

(** Modelled from the spec: [ceph_common.exec_command] is not among the
    sources.  The executor runs the argument list and returns the exit code,
    the command and the captured output, as the callers unpack it
    ([rc, cmd, out, err]) and as [test_exec_command] checks it. *)
Definition exec_command (c : command) : M (Z * command * str * str) :=
  fun st =>
    let '((rc, out, err), w) := run_command C c (world st) in
    (inl (rc, c, out, err), {| world := w; trace := trace st ++ [c] |}).

(** Modelled from the spec: [ceph_common.exit_module] is not among the
    sources.  Like the function of the same name in [radosgw_zone.py] it ends
    the run through [exit_json] with the command, the exit code, the output
    stripped of trailing line ends and [changed]. *)
Definition exit_module {A} (out : str) (rc : Z) (cmd : command) (err : str)
    (changed : bool) : M A :=
  finish (ExitJson {| r_cmd := Some cmd;
                      r_rc := rc;
                      r_stdout := rstrip out [CR; LF];
                      r_stderr := rstrip err [CR; LF];
                      r_changed := changed |}).

(** [with tempfile.TemporaryDirectory() as tmpdirname: body]: the directory
    is removed however the body is left. *)
Definition with_tmpdir {A} (body : str -> M A) : M A :=
  fun st =>
    let '(tmpdirname, w) := mkdtemp C (world st) in
    let '(r, st') := body tmpdirname {| world := w; trace := trace st |} in
    (r, {| world := cleanup C tmpdirname (world st'); trace := trace st' |}).

Definition read_file (path : str) : M str :=
  fun st =>
    match read_text C path (world st) with
    | Some text => (inl text, st)
    | None => (inr (Uncaught OSError), st)
    end.

Definition write_file (path text : str) : M unit :=
  fun st =>
    match write_text C path text (world st) with
    | Some w => (inl tt, {| world := w; trace := trace st |})
    | None => (inr (Uncaught OSError), st)
    end.

Definition create_rule (p : params) : command :=
  let cmd :=
    build_base_cmd_shell C p ++ args ["ceph"; "osd"; "crush"; "rule"]%string in
  if opt_eqb (rule_type p) (Some (lit "replicated")) then
    let cmd := cmd ++ [Some (lit "create-replicated"); Some (name p);
                       bucket_root p; bucket_type p] in
    if truthy (device_class p) then cmd ++ [device_class p] else cmd
  else
    let cmd := cmd ++ [Some (lit "create-erasure"); Some (name p)] in
    if truthy (profile p) then cmd ++ [profile p] else cmd.

Definition remove_rule (p : params) : command :=
  build_base_cmd_shell C p ++
  args ["ceph"; "osd"; "crush"; "rule"; "rm"]%string ++ [Some (name p)].

(** [cmd.extend(['--mount', '{0}:{0}'.format(tmpdirname), '--'])] *)
Definition mount_cmd (p : params) (tmpdirname : str) : command :=
  build_base_cmd_shell C p ++
  [Some (lit "--mount"); Some (tmpdirname ++ lit ":" ++ tmpdirname);
   Some (lit "--")].

Definition dump_failed : str :=
  lit "dump of the CRUSH map failed with output: ".
Definition decompile_failed : str :=
  lit "decompile of the CRUSH map failed with output: ".
Definition compile_failed : str :=
  lit "compilation of the CRUSH map failed with output: ".
Definition install_failed : str :=
  lit "installation of the CRUSH map failed with output: ".

Definition dump_crush_map (p : params) (tmpdirname : str) : command :=
  mount_cmd p tmpdirname ++
  args ["ceph"; "osd"; "getcrushmap"; "-o"]%string ++
  [Some (path_join tmpdirname (lit "_raw_crushmap.bin"))].

Definition decompile_map (p : params) (tmpdirname : str) : command :=
  mount_cmd p tmpdirname ++
  args ["crushtool"; "-d"]%string ++
  [Some (path_join tmpdirname (lit "_raw_crushmap.bin")); Some (lit "-o");
   Some (path_join tmpdirname (lit "_crushmap.txt"))].

Definition decompile_crushmap (p : params) : M (Z * command * str * str) :=
  with_tmpdir (fun tmpdirname =>
    let decompiled_map := path_join tmpdirname (lit "_crushmap.txt") in
    (res <- exec_command (dump_crush_map p tmpdirname) ;;
     let '(rc, cmd, out, err) := res in
     if negb (Z.eqb rc 0) then ret (rc, cmd, dump_failed ++ out, err)
     else
       res <- exec_command (decompile_map p tmpdirname) ;;
       let '(rc, cmd, out, err) := res in
       if negb (Z.eqb rc 0) then ret (rc, cmd, decompile_failed ++ out, err)
       else
         crushmap_content <- read_file decompiled_map ;;
         ret (0%Z, decompile_map p tmpdirname, crushmap_content, []))%run).

Definition compile_map (p : params) (tmpdirname : str) : command :=
  mount_cmd p tmpdirname ++
  args ["crushtool"; "-c"]%string ++
  [Some (path_join tmpdirname (lit "_patched_crushmap.txt")); Some (lit "-o");
   Some (path_join tmpdirname (lit "_raw_patched_crushmap.bin"))].

Definition install_map (p : params) (tmpdirname : str) : command :=
  mount_cmd p tmpdirname ++
  args ["ceph"; "osd"; "setcrushmap"; "-i"]%string ++
  [Some (path_join tmpdirname (lit "_raw_patched_crushmap.bin"))].

Definition install_crushmap (p : params) (crushmap_content : str)
    : M (Z * command * str * str) :=
  with_tmpdir (fun tmpdirname =>
    let patched_map := path_join tmpdirname (lit "_patched_crushmap.txt") in
    (_ <- write_file patched_map crushmap_content ;;
     res <- exec_command (compile_map p tmpdirname) ;;
     let '(rc, cmd, out, err) := res in
     if negb (Z.eqb rc 0) then ret (rc, cmd, compile_failed ++ out, err)
     else
       res <- exec_command (install_map p tmpdirname) ;;
       let '(rc, cmd, out, err) := res in
       if negb (Z.eqb rc 0) then ret (rc, cmd, install_failed ++ out, err)
       else ret res)%run).

Definition set_locals (res : Z * command * str * str) (changed : bool)
    : locals :=
  let '(rc, cmd, out, err) := res in
  {| rc := rc; cmd := cmd; out := out; err := err; changed := changed |}.

Definition get_rule (p : params) : command :=
  build_base_cmd_shell C p ++
  args ["ceph"; "osd"; "crush"; "rule"; "dump"]%string ++
  [Some (name p); Some (lit "--format=json")].

Definition cannot_convert (p : params) : str :=
  lit "Can not convert crush rule " ++ name p ++ lit " to " ++
  format_opt (rule_type p).

Definition does_not_exist (p : params) : str :=
  lit "Crush Rule " ++ name p ++ lit " doesn't exist".

(** The [state == "present"] branch of [main], from the variables it finds
    to the variables it leaves. *)
Definition present (p : params) (v : locals) : M locals :=
  (if negb (Z.eqb (rc v) 0) then
     res <- exec_command (create_rule p) ;;
     ret (set_locals res true)
   else
     rule <- lift (json_loads C (out v)) ;;
     rule_type_code <- lift (getitem rule (lit "type")) ;;
     existing <- lift (RULE_TYPES rule_type_code) ;;
     if negb (opt_eqb (rule_type p) (Some existing)) then
       finish (FailJson (cannot_convert p) false 1)
     else
       differs <- (if opt_eqb (rule_type p) (Some (lit "replicated"))
                   then lift (need_changes p rule)
                   else ret false) ;;
       if differs : bool then
         res <- decompile_crushmap p ;;
         let '(rc, cmd, out, err) := res in
         if negb (Z.eqb rc 0) then exit_module out rc cmd err (changed v)
         else
           patched_crushmap <- lift (patch_content p out) ;;
           res <- install_crushmap p patched_crushmap ;;
           ret (set_locals res true)
       else ret v)%run.

(** The [state == "absent"] branch. *)
Definition absent (p : params) (v : locals) : M locals :=
  (if Z.eqb (rc v) 0 then
     res <- exec_command (remove_rule p) ;;
     ret (set_locals res true)
   else
     ret {| rc := 0; cmd := cmd v; out := does_not_exist p; err := err v;
            changed := changed v |})%run.

Definition main_body (p : params) : M outcome :=
  (if check_mode p then
     finish (ExitJson {| r_cmd := None; r_rc := 0; r_stdout := [];
                         r_stderr := []; r_changed := false |})
   else
     res <- exec_command (get_rule p) ;;
     let v := set_locals res false in
     v <- (if str_eqb (state p) (lit "present") then present p v
           else if str_eqb (state p) (lit "absent") then absent p v
           else ret v) ;;
     exit_module (out v) (rc v) (cmd v) (err v) (changed v))%run.

(** A run of the module from the world [w]: how it ends, and the world and
    the commands it has executed. *)
Definition main (p : params) (w : W) : outcome * run_state W :=
  match main_body p {| world := w; trace := [] |} with
  | (inl o, st) => (o, st)
  | (inr o, st) => (o, st)
  end.

End Module.

Arguments main {W} C p w.

(** ** The specification's reading of a rule *)

Fixpoint takewhile (f : char -> bool) (s : str) : str :=
  match s with
  | [] => []
  | c :: s' => if f c then c :: takewhile f s' else []
  end.

Definition not_tilde (c : char) : bool := negb (N.eqb c tilde).

(** The root of a [take] step: the text of [item_name] before the first
    [~]. *)
Definition take_root (item_name : str) : str := takewhile not_tilde item_name.

(** Its device class: the text after the first [~], up to a further [~];
    absent when [item_name] has no [~]. *)
Definition take_class (item_name : str) : option str :=
  match dropwhile not_tilde item_name with
  | [] => None
  | _ :: after => Some (takewhile not_tilde after)
  end.

(** The steps of the data model, by what the inspector reads of them. *)
Inductive step_kind :=
| TakeStep (item_name : str)
| ChooseleafStep (type : str)
| OtherStep.

(** A step of the dumped rule is of the given kind. *)
Definition describes (step : json) (k : step_kind) : Prop :=
  exists d op,
    step = JDict d /\ lookup d (lit "op") = Some op /\
    match k with
    | TakeStep item_name =>
        op = JStr (lit "take") /\
        lookup d (lit "item_name") = Some (JStr item_name)
    | ChooseleafStep type =>
        op = JStr (lit "chooseleaf_firstn") /\
        lookup d (lit "type") = Some (JStr type)
    | OtherStep =>
        json_eq_str op (lit "take") = false /\
        json_eq_str op (lit "chooseleaf_firstn") = false
    end.

(** A step diverges from the desired rule. *)
Definition diverges (p : params) (k : step_kind) : bool :=
  match k with
  | TakeStep item_name =>
      negb (opt_eqb (Some (take_root item_name)) (bucket_root p)) ||
      negb (opt_eqb (take_class item_name) (device_class p))
  | ChooseleafStep type => negb (opt_eqb (Some type) (bucket_type p))
  | OtherStep => false
  end.

(** ** The shape of a map text *)

(** A text that ends in a newline. *)
Definition ends_with_newline (s : str) : bool :=
  match rev s with
  | c :: _ => N.eqb c LF
  | [] => false
  end.

(** No line opens the block of the rule. *)
Definition no_header (rule_name : str) (lines : list str) : Prop :=
  Forall (fun l => startswith l (rule_prefix rule_name) = false) lines.

(** The lines from the closing brace of the block on: nothing, when the
    block is not closed. *)
Definition closes (after : list str) : Prop :=
  match after with
  | [] => True
  | l :: _ => startswith l (lit "}") = true
  end.

(** ** Example data *)

Definition replicated (rule_name root domain : string)
    (class : option string) : params :=
  {| name := lit rule_name;
     state := lit "present";
     rule_type := Some (lit "replicated");
     bucket_root := Some (lit root);
     bucket_type := Some (lit domain);
     device_class := option_map lit class;
     profile := None;
     check_mode := false |}.

(** A text from its lines, each ended by a newline, as [crushtool -d] writes
    it. *)
Definition text_of (lines : list string) : str :=
  flat_map (fun l => lit l ++ [LF]) lines.

Definition TAB : string := String (ascii_of_nat 9) EmptyString.

Definition map_foobar_foo : str :=
  text_of ["# rules";
           "rule foobar {";
           TAB ++ "id 1";
           TAB ++ "type replicated";
           TAB ++ "step take default";
           TAB ++ "step chooseleaf firstn 0 type host";
           TAB ++ "step emit";
           "}";
           "rule foo {";
           TAB ++ "id 2";
           TAB ++ "type replicated";
           TAB ++ "step take default";
           TAB ++ "step chooseleaf firstn 0 type host";
           TAB ++ "step emit";
           "}";
           "# end crush map"]%string.

Definition map_foo : str :=
  text_of ["# rules";
           "rule foo {";
           TAB ++ "step take default class hdd";
           TAB ++ "step chooseleaf firstn 0 type host";
           TAB ++ "step emit";
           "}";
           "# end crush map"]%string.

Definition step_take (item_name : str) : json :=
  JDict [(lit "op", JStr (lit "take")); (lit "item", JInt (-1));
         (lit "item_name", JStr item_name)].

Definition step_chooseleaf (type : str) : json :=
  JDict [(lit "op", JStr (lit "chooseleaf_firstn")); (lit "num", JInt 0);
         (lit "type", JStr type)].

Definition step_emit : json := JDict [(lit "op", JStr (lit "emit"))].

(** A rule as [ceph osd crush rule dump <name> --format=json] prints it. *)
Definition dumped_rule (rule_name : string) (type : Z) (steps : list json)
    : json :=
  JDict [(lit "rule_id", JInt 0); (lit "rule_name", JStr (lit rule_name));
         (lit "type", JInt type); (lit "steps", JList steps)].

Definition rule_default_host : json :=
  dumped_rule "foo" 1
    [step_take (lit "default"); step_chooseleaf (lit "host"); step_emit].

(** A scripted cluster: the answers of the commands to come, in order; the
    decompiled map reads as [map_foo], and the rule dump parses to
    [rule_default_host]. *)
Definition script := list (Z * str * str).

Definition scripted : collaborators script :=
  {| run_command := fun _ w =>
       match w with
       | r :: w' => (r, w')
       | [] => ((0%Z, [], []), [])
       end;
     mkdtemp := fun w => (lit "/tmp/tmpk3x", w);
     cleanup := fun _ w => w;
     read_text := fun _ _ => Some map_foo;
     write_text := fun _ _ w => Some w;
     build_base_cmd_shell := fun _ => args ["cephadm"; "shell"]%string;
     json_loads := fun s =>
       if str_eqb s (lit "{rule}") then Ok rule_default_host
       else Raise JSONDecodeError |}.

(** A text from its lines with a newline between them, as [patch_content]
    returns it. *)
Definition lines_of (lines : list string) : str := join [LF] (map lit lines).

Definition map_foo_ssd : str :=
  text_of ["# rules";
           "rule foo {";
           TAB ++ "step take default class ssd";
           TAB ++ "step chooseleaf firstn 0 type host";
           TAB ++ "step emit";
           "}";
           "# end crush map"]%string.

Definition map_no_rule : str :=
  text_of ["# begin crush map"; "# end crush map"]%string.

Definition erasure_foo : params :=
  {| name := lit "foo";
     state := lit "present";
     rule_type := Some (lit "erasure");
     bucket_root := None;
     bucket_type := None;
     device_class := None;
     profile := Some (lit "bar");
     check_mode := false |}.

Definition absent_foo : params :=
  {| name := lit "foo";
     state := lit "absent";
     rule_type := None;
     bucket_root := None;
     bucket_type := None;
     device_class := None;
     profile := None;
     check_mode := false |}.

Definition no_such_rule : str := lit "Error ENOENT: unknown crush rule 'foo'".

(** ** Notions used to state further properties *)

(** No occurrence of [old] begins inside [pre] when [pre] is followed by
    [rest]. *)
Fixpoint clear_before (pre rest old : str) : bool :=
  match pre with
  | [] => true
  | _ :: pre' =>
      negb (startswith (pre ++ rest) old) && clear_before pre' rest old
  end.

(** A word as the patterns capture it: one or more characters, none of them
    white space. *)
Definition is_word (s : str) : bool :=
  match s with
  | [] => false
  | _ :: _ => forallb non_space s
  end.


(** The text stops a repetition of the class [cls]: it is empty or begins
    with a character outside the class. *)
Definition stops (cls : char -> bool) (rest : str) : Prop :=
  match rest with
  | [] => True
  | x :: _ => cls x = false
  end.

(** A [step take] line as [crushtool] writes it: indentation, the words
    [step take], the root and, optionally, [class] and the device class. *)
Definition take_line (indent root : str) (class : option str) : str :=
  indent ++ lit "step take " ++ root ++
  match class with
  | Some c => lit " class " ++ c
  | None => []
  end.

(** A [step chooseleaf firstn 0 type] line. *)
Definition chooseleaf_line (indent domain : str) : str :=
  indent ++ lit "step chooseleaf firstn 0 type " ++ domain.

(** A line that begins, behind white space, with the words of one of the
    two steps the editor rewrites. *)
Definition step_shaped (line : str) : Prop :=
  exists indent rest,
    forallb is_space indent = true /\
    (line = indent ++ lit "step take " ++ rest \/
     line = indent ++ lit "step chooseleaf firstn 0 type " ++ rest).

(** The class part of a [step take] line. *)
Definition class_suffix (class : option str) : str :=
  match class with
  | Some c => lit " class " ++ c
  | None => []
  end.

(** Replacing the root of a [step take] line meets the root only: the new
    root is the old one, or the old root occurs neither before its place in
    the line nor in the class part behind it. *)
Definition root_clear (indent root : str) (class : option str)
    (new_root : str) : Prop :=
  new_root = root \/
  (clear_before (indent ++ lit "step take ") (root ++ class_suffix class) root
     = true /\
   clear_before (class_suffix class) [] root = true).

(** A computation executes at most [n] commands, each of them one that
    [P] holds of, and keeps the commands executed before. *)
Definition appends {W A : Type} (P : command -> Prop) (n : nat)
    (m : run_state W -> (A + outcome) * run_state W) : Prop :=
  forall st, exists more,
    trace (snd (m st)) = trace st ++ more /\
    length more <= n /\ Forall P more.

(** The commands the module is written to run. *)
Definition module_command {W : Type} (C : collaborators W) (p : params)
    (c : command) : Prop :=
  c = get_rule C p \/ c = create_rule C p \/ c = remove_rule C p \/
  exists dir,
    c = dump_crush_map C p dir \/ c = decompile_map C p dir \/
    c = compile_map C p dir \/ c = install_map C p dir.


(** A rule dump that parses to the given rule. *)
Definition scripted_rule (rule : json) : collaborators script :=
  {| run_command := run_command scripted;
     mkdtemp := mkdtemp scripted;
     cleanup := cleanup scripted;
     read_text := read_text scripted;
     write_text := write_text scripted;
     build_base_cmd_shell := build_base_cmd_shell scripted;
     json_loads := fun _ => Ok rule |}.

Definition check_foo : params :=
  {| name := lit "foo";
     state := lit "present";
     rule_type := Some (lit "replicated");
     bucket_root := Some (lit "default");
     bucket_type := Some (lit "host");
     device_class := None;
     profile := None;
     check_mode := true |}.

Definition map_foo_default : str :=
  text_of ["# rules";
           "rule foo {";
           TAB ++ "id 1";
           TAB ++ "type replicated";
           TAB ++ "step take default";
           TAB ++ "step chooseleaf firstn 0 type host";
           TAB ++ "step emit";
           "}";
           "# end crush map"]%string.

(** The scripted cluster whose decompiled map reads as [map_foo_default],
    the map of the rule [rule_default_host]. *)
Definition scripted_plain : collaborators script :=
  {| run_command := run_command scripted;
     mkdtemp := mkdtemp scripted;
     cleanup := cleanup scripted;
     read_text := fun _ _ => Some map_foo_default;
     write_text := write_text scripted;
     build_base_cmd_shell := build_base_cmd_shell scripted;
     json_loads := json_loads scripted |}.

(** ** Facts about the string methods *)

Unset Implicit Arguments.

Lemma str_eqb_eq (a b : str) : str_eqb a b = true <-> a = b.
Proof.
  revert b; induction a as [|x a IH]; intros [|y b]; simpl;
    try (split; [discriminate | discriminate]); try tauto.
  rewrite andb_true_iff, N.eqb_eq, IH.
  split; [intros [-> ->]; reflexivity | intros H; inversion H; auto].
Qed.

Lemma str_eqb_refl (a : str) : str_eqb a a = true.
Proof. apply str_eqb_eq; reflexivity. Qed.

Lemma opt_eqb_eq (a b : option str) : opt_eqb a b = true <-> a = b.
Proof.
  destruct a as [a|], b as [b|]; simpl; try (split; congruence).
  rewrite str_eqb_eq; split; congruence.
Qed.

Lemma startswith_app (s a b : str) :
  startswith s (a ++ b) = true -> startswith s a = true.
Proof.
  revert s; induction a as [|c a IH]; intros s; simpl; [reflexivity|].
  destruct s as [|d s]; [discriminate|].
  rewrite !andb_true_iff; intros [H1 H2]; auto.
Qed.

Lemma startswith_first (s t : str) (c d : char) :
  c <> d -> startswith s (c :: t) = true ->
  forall u, startswith s (d :: u) = false.
Proof.
  intros Hcd H u; destruct s as [|x s]; simpl in *; [reflexivity|].
  apply andb_true_iff in H as [H _]; apply N.eqb_eq in H; subst x.
  apply andb_false_iff; left; apply N.eqb_neq; exact Hcd.
Qed.

Lemma splitlines_nil (s : str) : splitlines s = [] -> s = [].
Proof.
  destruct s as [|c s]; [reflexivity|]; simpl.
  destruct (is_linebreak c).
  - destruct s as [|d s]; [discriminate|].
    destruct (N.eqb c CR && N.eqb d LF); discriminate.
  - destruct (splitlines s); discriminate.
Qed.

Lemma join_cons (sep l : str) (c : char) (ls : list str) :
  join sep ((c :: l) :: ls) = c :: join sep (l :: ls).
Proof. destruct ls; reflexivity. Qed.

Lemma ends_with_newline_cons (c : char) (s : str) :
  s <> [] -> ends_with_newline (c :: s) = ends_with_newline s.
Proof.
  intros Hs; unfold ends_with_newline; simpl.
  destruct (rev s) as [|x r] eqn:E; [|reflexivity].
  apply (f_equal (@rev char)) in E; rewrite rev_involutive in E; contradiction.
Qed.

(** Splitting into lines and joining them again gives the text back when the
    newline is its only line boundary and does not end it. *)
Lemma join_splitlines (s : str) :
  (forall c, In c s -> is_linebreak c = true -> c = LF) ->
  ends_with_newline s = false ->
  join [LF] (splitlines s) = s.
Proof.
  induction s as [|c s IH]; intros Hlb Hend; [reflexivity|].
  assert (Hlb' : forall x, In x s -> is_linebreak x = true -> x = LF)
    by (intros x Hx; apply Hlb; right; exact Hx).
  simpl; destruct (is_linebreak c) eqn:Ec.
  - assert (c = LF) by (apply Hlb; [left; reflexivity | exact Ec]); subst c.
    destruct s as [|d s]; [discriminate Hend|].
    rewrite ends_with_newline_cons in Hend by discriminate.
    replace (N.eqb LF CR && N.eqb d LF) with false by reflexivity.
    specialize (IH Hlb' Hend).
    destruct (splitlines (d :: s)) as [|l ls] eqn:E.
    + apply splitlines_nil in E; discriminate.
    + cbn [join]; rewrite <- IH; reflexivity.
  - destruct s as [|d s]; [reflexivity|].
    rewrite ends_with_newline_cons in Hend by discriminate.
    specialize (IH Hlb' Hend).
    destruct (splitlines (d :: s)) as [|l ls] eqn:E.
    + apply splitlines_nil in E; discriminate.
    + rewrite join_cons, IH; reflexivity.
Qed.

Lemma dropwhile_app (f : char -> bool) (a b : str) (x : char) :
  f x = false -> dropwhile f (a ++ x :: b) = dropwhile f a ++ x :: b.
Proof.
  intros Hx; induction a as [|c a IH]; simpl.
  - rewrite Hx; reflexivity.
  - destruct (f c); [exact IH | reflexivity].
Qed.

(** Stripping stops at a character that is not stripped. *)
Lemma rstrip_app (a b chars : str) (x : char) :
  existsb (N.eqb x) chars = false ->
  rstrip ((a ++ [x]) ++ b) chars = (a ++ [x]) ++ rstrip b chars.
Proof.
  intros Hx; unfold rstrip.
  rewrite !rev_app_distr; simpl.
  rewrite dropwhile_app by exact Hx.
  rewrite rev_app_distr; simpl.
  rewrite rev_involutive, <- app_assoc; reflexivity.
Qed.

Lemma rstrip_keep (a chars : str) (x : char) :
  existsb (N.eqb x) chars = false -> rstrip (a ++ [x]) chars = a ++ [x].
Proof.
  intros Hx.
  rewrite <- (app_nil_r (a ++ [x])) at 1.
  rewrite rstrip_app by exact Hx.
  unfold rstrip; simpl; apply app_nil_r.
Qed.

(** ** Facts about the two patterns *)

Lemma run_star_inv cls k pos s c m :
  run_star cls k pos s c = Some m -> exists pos' s', k pos' s' c = Some m.
Proof.
  revert pos; induction s as [|x s IH]; intros pos H; simpl in H.
  - eauto.
  - destruct (cls x); [|eauto].
    destruct (run_star cls k (S pos) s c) eqn:E; [|eauto].
    inversion H; subst; eauto.
Qed.

Lemma run_Seq_inv r1 r2 k pos s c m :
  run (Seq r1 r2) k pos s c = Some m -> run r1 (run r2 k) pos s c = Some m.
Proof. exact (fun H => H). Qed.

Lemma run_Bol_inv k pos s c m :
  run Bol k pos s c = Some m -> k pos s c = Some m.
Proof. simpl; destruct (Nat.eqb pos 0); [auto | discriminate]. Qed.

Lemma run_Eol_inv k pos s c m :
  run Eol k pos s c = Some m -> k pos s c = Some m.
Proof.
  simpl; destruct s as [|x [|y s]]; auto; try discriminate.
  destruct (N.eqb x LF); [auto | discriminate].
Qed.

Lemma run_Lit_inv l k pos s c m :
  run (Lit l) k pos s c = Some m ->
  k (pos + length l) (skipn (length l) s) c = Some m.
Proof. simpl; destruct (startswith s l); [auto | discriminate]. Qed.

Lemma run_Star_inv cls k pos s c m :
  run (Star cls) k pos s c = Some m -> exists pos' s', k pos' s' c = Some m.
Proof. apply run_star_inv. Qed.

Lemma run_Plus_inv cls k pos s c m :
  run (Plus cls) k pos s c = Some m -> exists pos' s', k pos' s' c = Some m.
Proof.
  simpl; destruct s as [|x s]; [discriminate|].
  destruct (cls x); [apply run_star_inv | discriminate].
Qed.

Lemma run_Opt_inv r k pos s c m :
  run (Opt r) k pos s c = Some m ->
  run r k pos s c = Some m \/ k pos s c = Some m.
Proof. simpl; destruct (run r k pos s c); auto. Qed.

Lemma run_Group_Plus_inv n cls k pos s c m :
  run (Group n (Plus cls)) k pos s c = Some m ->
  exists pos' s' g, k pos' s' ((n, g) :: c) = Some m.
Proof.
  intros H; change (run (Plus cls)
    (fun pos' s' c' => k pos' s' ((n, firstn (pos' - pos) s) :: c'))
    pos s c = Some m) in H.
  apply run_Plus_inv in H as (pos' & s' & H); eauto.
Qed.

(** A match of the [step take] pattern has group 1, and has group 2 whenever
    it has group 3. *)
Lemma reg_bucket_root_groups line m :
  re_match reg_bucket_root line = Some m ->
  exists g1,
    m = [(1, g1)] \/ exists g2 g3, m = [(2, g2); (3, g3); (1, g1)].
Proof.
  unfold re_match; cbv [reg_bucket_root seq_of]; intros H.
  apply run_Seq_inv, run_Bol_inv, run_Seq_inv, run_Star_inv in H
    as (pos1 & s1 & H).
  apply run_Seq_inv, run_Lit_inv, run_Seq_inv, run_Group_Plus_inv in H
    as (pos2 & s2 & g1 & H).
  exists g1.
  apply run_Seq_inv, run_Opt_inv in H as [H | H].
  - right.
    change (run (Seq (Lit (lit " class ")) (Group 3 (Plus non_space)))
      (fun pos' s' c' =>
         run Eol (fun _ _ c0 => Some c0) pos' s'
             ((2, firstn (pos' - pos2) s2) :: c'))
      pos2 s2 [(1, g1)] = Some m) in H.
    apply run_Seq_inv, run_Lit_inv, run_Group_Plus_inv in H
      as (pos3 & s3 & g3 & H).
    apply run_Eol_inv in H; inversion H; eauto.
  - left; apply run_Eol_inv in H; inversion H; reflexivity.
Qed.

Lemma reg_failure_domain_groups line m :
  re_match reg_failure_domain line = Some m -> exists g1, m = [(1, g1)].
Proof.
  unfold re_match; cbv [reg_failure_domain seq_of]; intros H.
  apply run_Seq_inv, run_Bol_inv, run_Seq_inv, run_Star_inv in H
    as (pos1 & s1 & H).
  apply run_Seq_inv, run_Lit_inv, run_Seq_inv, run_Group_Plus_inv in H
    as (pos2 & s2 & g1 & H).
  apply run_Eol_inv in H; inversion H; eauto.
Qed.

(** With a root and a failure domain given, patching a line raises
    nothing. *)
Lemma patch_line_total p root domain line :
  bucket_root p = Some root -> bucket_type p = Some domain ->
  exists line', patch_line p line = Ok line'.
Proof.
  intros Hroot Hdom; unfold patch_line; rewrite Hroot, Hdom.
  destruct (re_match reg_bucket_root line) as [m|] eqn:Em.
  - apply reg_bucket_root_groups in Em as (g1 & [-> | (g2 & g3 & ->)]);
      destruct (device_class p) as [[|c cls]|]; simpl;
      try destruct g3; simpl; eauto.
  - destruct (re_match reg_failure_domain line) as [m|] eqn:Ed; [|eauto].
    apply reg_failure_domain_groups in Ed as (g1 & ->); simpl; eauto.
Qed.

(** ** Facts about the pass over the lines *)

Lemma brace_not_header (l rule_name : str) :
  startswith l (lit "}") = true -> startswith l (rule_prefix rule_name) = false.
Proof.
  intros H; apply (startswith_first l [] 125%N 114%N);
    [discriminate | exact H].
Qed.

Lemma patch_lines_no_header p lines :
  no_header (name p) lines -> patch_lines p false lines = Ok lines.
Proof.
  induction 1 as [|l ls Hl _ IH]; cbn [patch_lines]; [reflexivity|].
  rewrite Hl, IH; reflexivity.
Qed.

Lemma patch_lines_before p before rest :
  no_header (name p) before ->
  patch_lines p false (before ++ rest) =
  rbind (patch_lines p false rest) (fun rest' => Ok (before ++ rest')).
Proof.
  induction 1 as [|l ls Hl _ IH]; cbn [patch_lines app].
  - destruct (patch_lines p false rest); reflexivity.
  - rewrite Hl, IH; cbn [andb].
    destruct (patch_lines p false rest); reflexivity.
Qed.

Lemma patch_lines_inside p root domain body after :
  bucket_root p = Some root -> bucket_type p = Some domain ->
  Forall (fun l => startswith l (lit "}") = false) body ->
  closes after ->
  exists body',
    length body' = length body /\
    patch_lines p true (body ++ after) = Ok (body' ++ after).
Proof.
  intros Hroot Hdom Hbody Hafter;
    induction Hbody as [|l ls Hl _ IH]; cbn [patch_lines app].
  - exists []; split; [reflexivity|].
    destruct after as [|l after]; [reflexivity|]; cbn [closes patch_lines] in *.
    rewrite (brace_not_header _ _ Hafter), Hafter; reflexivity.
  - destruct IH as (body' & Hlen & IH); rewrite IH, Hl; cbn [andb rbind].
    destruct (startswith l (rule_prefix (name p))).
    + exists (l :: body'); cbn [length app]; auto.
    + destruct (patch_line_total p root domain l Hroot Hdom) as (l' & ->);
        cbn [rbind].
      exists (l' :: body'); cbn [length app]; auto.
Qed.

(** ** The editor: [patch_content] *)

(** The lines of the specification's examples (section 8) come out as it
    says. *)
Example root_round_trip :
  patch_line (replicated "foo" "rack1" "host" (Some "ssd"%string))
    (lit "step take default class ssd") = Ok (lit "step take rack1 class ssd").
Proof. reflexivity. Qed.

Example class_removal :
  patch_line (replicated "foo" "default" "host" None)
    (lit "step take default class ssd") = Ok (lit "step take default").
Proof. reflexivity. Qed.

Example class_addition :
  patch_line (replicated "foo" "default" "host" (Some "hdd"%string))
    (lit "step take default") = Ok (lit "step take default class hdd").
Proof. reflexivity. Qed.

Example failure_domain_rewrite :
  patch_line (replicated "foo" "default" "rack" None)
    (lit "step chooseleaf firstn 0 type host") =
  Ok (lit "step chooseleaf firstn 0 type rack").
Proof. reflexivity. Qed.

(** C1, as stated, fails: the text after the block of rule [foo] ends in a
    newline, and the output, joined from the lines, does not; so the output
    is not the input with only the block replaced. *)
Lemma patch_content_text_outside_block_differs :
  let p := replicated "foo" "default" "host" None in
  let before := text_of ["# rules"]%string in
  let block := lines_of ["rule foo {"; TAB ++ "step emit"; "}"]%string in
  let after := [LF] ++ text_of ["# end crush map"]%string in
  exists out,
    patch_content p (before ++ block ++ after) = Ok out /\
    ~ exists block', out = before ++ block' ++ after.
Proof.
  intros p before block after.
  eexists; split; [vm_compute; reflexivity|].
  intros (block' & H).
  apply (f_equal (fun s => hd 0%N (rev s))) in H.
  rewrite !rev_app_distr in H; discriminate H.
Qed.

(** C1 (amended): [patch_content] works on the lines [splitlines] gives and
    joins its result with single newlines.  Where the first line that begins
    with [rule <name>] is the header of the rule of that name, the lines up
    to and including the header and the lines from the first following line
    that begins with a closing brace are the same in the output; only the
    lines in between may differ, and there are as many of them as before. *)
Theorem patch_content_frame (p : params) (text root domain header : str)
    (before body after : list str) :
  bucket_root p = Some root ->
  bucket_type p = Some domain ->
  splitlines text = before ++ header :: body ++ after ->
  no_header (name p) before ->
  startswith header (rule_prefix (name p) ++ lit " ") = true ->
  Forall (fun l => startswith l (lit "}") = false) body ->
  closes after ->
  exists body',
    length body' = length body /\
    patch_content p text = Ok (join [LF] (before ++ header :: body' ++ after)).
Proof.
  intros Hroot Hdom Hsplit Hbefore Hheader Hbody Hafter.
  apply startswith_app in Hheader.
  destruct (patch_lines_inside p root domain body after Hroot Hdom Hbody
              Hafter) as (body' & Hlen & Hin).
  exists body'; split; [exact Hlen|].
  unfold patch_content; rewrite Hsplit, patch_lines_before by exact Hbefore.
  cbn [patch_lines]; rewrite Hheader, Hin; reflexivity.
Qed.

Lemma patch_content_frame_witness :
  let p := replicated "foo" "rack1" "rack" None in
  let before := [lit "# rules"] in
  let header := lit "rule foo {" in
  let body := map lit [TAB ++ "step take default class hdd";
                       TAB ++ "step chooseleaf firstn 0 type host";
                       TAB ++ "step emit"]%string in
  let after := map lit ["}"; "# end crush map"]%string in
  splitlines map_foo = before ++ header :: body ++ after /\
  exists body',
    length body' = length body /\
    patch_content p map_foo =
    Ok (join [LF] (before ++ header :: body' ++ after)).
Proof.
  intros p before header body after.
  split; [reflexivity|].
  apply (patch_content_frame p map_foo (lit "rack1") (lit "rack") header
           before body after).
  - reflexivity.
  - reflexivity.
  - reflexivity.
  - repeat constructor.
  - reflexivity.
  - repeat constructor.
  - reflexivity.
Defined.

(** C6, as stated, fails: a map without the rule that ends in a newline, as
    every decompiled map does, comes back without that newline. *)
Lemma patch_content_drops_final_newline :
  let p := replicated "foo" "default" "host" None in
  no_header (name p) (splitlines map_no_rule) /\
  patch_content p map_no_rule <> Ok map_no_rule.
Proof.
  split; [repeat constructor | vm_compute; discriminate].
Qed.

(** C6 (amended): when no line begins with [rule <name>], [patch_content]
    raises nothing and returns the lines of the input, unchanged and in
    order, joined by newlines; that is the input itself when the newline is
    its only line boundary and is not its last character. *)
Theorem patch_content_no_block (p : params) (text : str) :
  no_header (name p) (splitlines text) ->
  patch_content p text = Ok (join [LF] (splitlines text)) /\
  ((forall c, In c text -> is_linebreak c = true -> c = LF) ->
   ends_with_newline text = false ->
   patch_content p text = Ok text).
Proof.
  intros H.
  assert (E : patch_content p text = Ok (join [LF] (splitlines text)))
    by (unfold patch_content; rewrite patch_lines_no_header by exact H;
        reflexivity).
  split; [exact E|].
  intros Hlb Hend; rewrite E, join_splitlines by assumption; reflexivity.
Qed.

Lemma patch_content_no_block_witness :
  let p := replicated "foo" "default" "host" None in
  let text := lines_of ["# begin crush map"; "# end crush map"]%string in
  no_header (name p) (splitlines text) /\
  patch_content p text = Ok text.
Proof.
  intros p text.
  assert (H : no_header (name p) (splitlines text)) by repeat constructor.
  split; [exact H|].
  apply (patch_content_no_block p text H).
  - intros c Hc; vm_compute in Hc.
    repeat (destruct Hc as [<- | Hc]; [vm_compute; try discriminate; auto|]).
    contradiction.
  - reflexivity.
Defined.

(** The header of any rule whose name begins with the target name passes
    the test that opens the block. *)
Lemma longer_name_opens_block (rule_name more rest : str) :
  startswith (rule_prefix (rule_name ++ more) ++ rest)
             (rule_prefix rule_name) = true.
Proof.
  unfold rule_prefix; rewrite app_assoc, <- app_assoc.
  generalize (more ++ rest); intros tail.
  induction (lit "rule " ++ rule_name) as [|c s IH]; [reflexivity|].
  cbn [app startswith]; rewrite N.eqb_refl; exact IH.
Qed.

(** C7: with the rule name [foo], the line [rule foobar {] opens the block:
    the steps of [foobar] are rewritten, the scan stops at its closing brace,
    and the rule [foo] further down is left as it was. *)
Theorem patch_content_enters_longer_name :
  let p := replicated "foo" "rack1" "rack" (Some "ssd"%string) in
  startswith (lit "rule foobar {") (rule_prefix (name p)) = true /\
  patch_content p map_foobar_foo =
  Ok (lines_of ["# rules";
                "rule foobar {";
                TAB ++ "id 1";
                TAB ++ "type replicated";
                TAB ++ "step take rack1 class ssd";
                TAB ++ "step chooseleaf firstn 0 type rack";
                TAB ++ "step emit";
                "}";
                "rule foo {";
                TAB ++ "id 2";
                TAB ++ "type replicated";
                TAB ++ "step take default";
                TAB ++ "step chooseleaf firstn 0 type host";
                TAB ++ "step emit";
                "}";
                "# end crush map"]%string).
Proof. split; reflexivity. Qed.

(** C2: the tokens are replaced as substrings of the whole line, one
    replacement after the other.  With the desired root [ssd-root] and class
    [hdd], the line [step take default class ssd] first becomes
    [step take ssd-root class ssd], and replacing the old class [ssd] then
    also rewrites the new root. *)
Theorem patch_content_replaces_inside_new_root :
  let p := replicated "foo" "ssd-root" "host" (Some "hdd"%string) in
  patch_content p map_foo_ssd =
  Ok (lines_of ["# rules";
                "rule foo {";
                TAB ++ "step take hdd-root class hdd";
                TAB ++ "step chooseleaf firstn 0 type host";
                TAB ++ "step emit";
                "}";
                "# end crush map"]%string).
Proof. reflexivity. Qed.

(** ** The inspector: [need_changes] *)

(** [split] cuts at the first [~] and goes on behind it. *)
Lemma split_tilde (s : str) :
  split s tilde =
  take_root s :: match dropwhile not_tilde s with
                 | [] => []
                 | _ :: after => split after tilde
                 end.
Proof.
  unfold take_root; induction s as [|c s IH]; [reflexivity|].
  cbn [split takewhile dropwhile]; unfold not_tilde at 1 3.
  destruct (N.eqb c tilde); cbn [negb]; [reflexivity|].
  rewrite IH; reflexivity.
Qed.

(** The second part of the split, when there is one, is the class. *)
Lemma split_class (s : str) :
  (if Nat.ltb 1 (length (split s tilde))
   then nth_error (split s tilde) 1
   else None) = take_class s.
Proof.
  rewrite split_tilde; unfold take_class.
  destruct (dropwhile not_tilde s) as [|c after]; [reflexivity|].
  rewrite split_tilde; reflexivity.
Qed.

(** On steps of the three kinds the loop returns whether one diverges. *)
Lemma need_changes_steps_kinds (p : params) (steps : list json)
    (kinds : list step_kind) :
  Forall2 describes steps kinds ->
  need_changes_steps p steps = Ok (existsb (diverges p) kinds).
Proof.
  induction 1 as [|step k steps kinds Hk _ IH]; [reflexivity|].
  destruct Hk as (d & op & -> & Hop & Hk).
  cbn [need_changes_steps getitem existsb]; rewrite Hop; cbn [rbind].
  destruct k as [item_name | type |].
  - destruct Hk as [-> Hitem].
    replace (json_eq_str (JStr (lit "take")) (lit "take")) with true
      by reflexivity.
    rewrite Hitem; cbn [rbind json_split].
    pose proof (split_class item_name) as Hclass.
    rewrite split_tilde in Hclass |- *.
    cbv zeta; rewrite Hclass; cbn [diverges].
    destruct (negb _ || negb _); [reflexivity | exact IH].
  - destruct Hk as [-> Htype].
    replace (json_eq_str (JStr (lit "chooseleaf_firstn")) (lit "take"))
      with false by reflexivity.
    replace (json_eq_str (JStr (lit "chooseleaf_firstn"))
               (lit "chooseleaf_firstn")) with true by reflexivity.
    rewrite Htype; cbn [rbind diverges json_eq_opt opt_eqb].
    destruct (bucket_type p) as [t|]; cbn [negb orb];
      [destruct (str_eqb type t)|]; cbn [negb orb]; auto.
  - destruct Hk as [-> ->]; exact IH.
Qed.

Lemma need_changes_kinds (p : params) (rule : json) (steps : list json)
    (kinds : list step_kind) :
  getitem rule (lit "steps") = Ok (JList steps) ->
  Forall2 describes steps kinds ->
  need_changes p rule = Ok (existsb (diverges p) kinds).
Proof.
  intros Hsteps Hkinds; unfold need_changes; rewrite Hsteps.
  apply need_changes_steps_kinds; exact Hkinds.
Qed.

Lemma existsb_none {A} (f : A -> bool) (l : list A) :
  existsb f l = false <-> forall x, In x l -> f x = false.
Proof.
  induction l as [|a l IH]; simpl; [split; [contradiction | reflexivity]|].
  rewrite orb_false_iff, IH; split.
  - intros [Ha Hl] x [<- | Hx]; auto.
  - intros H; split; [apply H; left; reflexivity | intros x Hx; apply H; auto].
Qed.

Ltac describe_steps :=
  repeat (constructor;
          [eexists; eexists; repeat split; reflexivity|]);
  constructor.

(** C3: for a rule whose steps are [take] steps with an [item_name],
    [chooseleaf_firstn] steps with a [type], and steps of other operations,
    [need_changes] returns true exactly when some step diverges (the root
    before the first [~] differs from [bucket_root], the class behind it,
    absent without [~], differs from [device_class], or the type of a
    [chooseleaf_firstn] step differs from [bucket_type]) and false exactly
    when none does; so false for a rule without such steps. *)
Theorem need_changes_iff_diverges (p : params) (rule : json)
    (steps : list json) (kinds : list step_kind) :
  getitem rule (lit "steps") = Ok (JList steps) ->
  Forall2 describes steps kinds ->
  need_changes p rule = Ok (existsb (diverges p) kinds) /\
  (need_changes p rule = Ok true <->
   exists k, In k kinds /\ diverges p k = true) /\
  (need_changes p rule = Ok false <->
   forall k, In k kinds -> diverges p k = false).
Proof.
  intros Hsteps Hkinds.
  rewrite (need_changes_kinds p rule steps kinds Hsteps Hkinds).
  split; [reflexivity|]; split.
  - rewrite <- existsb_exists; split; congruence.
  - rewrite <- existsb_none; split; congruence.
Qed.

Lemma need_changes_iff_diverges_witness :
  let p := replicated "foo" "rack1" "host" None in
  let steps :=
    [step_take (lit "default"); step_chooseleaf (lit "host"); step_emit] in
  let kinds :=
    [TakeStep (lit "default"); ChooseleafStep (lit "host"); OtherStep] in
  getitem rule_default_host (lit "steps") = Ok (JList steps) /\
  Forall2 describes steps kinds /\
  need_changes p rule_default_host = Ok true.
Proof.
  intros p steps kinds.
  assert (Hsteps : getitem rule_default_host (lit "steps") = Ok (JList steps))
    by reflexivity.
  assert (Hkinds : Forall2 describes steps kinds) by describe_steps.
  split; [exact Hsteps|]; split; [exact Hkinds|].
  exact (proj1 (need_changes_iff_diverges p rule_default_host steps kinds
                  Hsteps Hkinds)).
Defined.

(** C9: [need_changes] does not take the empty string for an absent class,
    as [create_rule] and [patch_content] do.  With [device_class] [''] the
    rule is created without a class, by the command that [None] gives; on
    that rule [need_changes] returns true, where it returns false for
    [None]; [patch_content] leaves every line of the map as it is; so the
    run dumps, decompiles, compiles and installs an unchanged map and
    reports a change, and the next run does so again.  An [item_name] with
    an empty class, [default~], likewise differs from an absent
    [device_class]. *)
Theorem empty_device_class_never_settles :
  let absent_class := replicated "foo" "default" "host" None in
  let empty_class := replicated "foo" "default" "host" (Some ""%string) in
  let w := [(0%Z, lit "{rule}", []); (0%Z, [], []); (0%Z, [], []);
            (0%Z, [], []); (0%Z, [], [])] in
  let dir := lit "/tmp/tmpk3x" in
  create_rule scripted_plain empty_class =
    create_rule scripted_plain absent_class /\
  need_changes absent_class rule_default_host = Ok false /\
  need_changes empty_class rule_default_host = Ok true /\
  need_changes absent_class
    (dumped_rule "foo" 1 [step_take (lit "default~")]) = Ok true /\
  patch_content empty_class map_foo_default =
    Ok (join [LF] (splitlines map_foo_default)) /\
  main scripted_plain empty_class w =
    (ExitJson {| r_cmd := Some (install_map scripted_plain empty_class dir);
                 r_rc := 0;
                 r_stdout := [];
                 r_stderr := [];
                 r_changed := true |},
     {| world := [];
        trace := [get_rule scripted_plain empty_class;
                  dump_crush_map scripted_plain empty_class dir;
                  decompile_map scripted_plain empty_class dir;
                  compile_map scripted_plain empty_class dir;
                  install_map scripted_plain empty_class dir] |}).
Proof. repeat split; reflexivity. Qed.

(** ** The run of the module: [main] *)

(** Two command lines with the same base command and different words after
    it are different. *)
Ltac distinct_commands :=
  let H := fresh "H" in
  intros H;
  cbv [get_rule remove_rule create_rule dump_crush_map decompile_map
       compile_map install_map mount_cmd] in H;
  repeat rewrite <- app_assoc in H;
  apply app_inv_head in H;
  cbv [args map app] in H;
  repeat (injection H as ? H);
  try discriminate;
  match goal with
  | E : Some (lit _) = Some (lit _) |- _ => vm_compute in E; discriminate E
  | E : lit _ = lit _ |- _ => vm_compute in E; discriminate E
  end.

Section Commands.

Variable W : Type.
Variable C : collaborators W.
Variable p : params.

Lemma remove_rule_not_get_rule : remove_rule C p <> get_rule C p.
Proof. distinct_commands. Qed.

Lemma compile_map_not_get_rule t : compile_map C p t <> get_rule C p.
Proof. distinct_commands. Qed.

Lemma install_map_not_get_rule t : install_map C p t <> get_rule C p.
Proof. distinct_commands. Qed.

Lemma compile_map_not_dump t t' : compile_map C p t <> dump_crush_map C p t'.
Proof. distinct_commands. Qed.

Lemma install_map_not_dump t t' : install_map C p t <> dump_crush_map C p t'.
Proof. distinct_commands. Qed.

Lemma compile_map_not_decompile t t' :
  compile_map C p t <> decompile_map C p t'.
Proof. distinct_commands. Qed.

Lemma install_map_not_decompile t t' :
  install_map C p t <> decompile_map C p t'.
Proof. distinct_commands. Qed.

End Commands.

(** One step of a run, once the answer of the world is known. *)
Ltac run_on :=
  cbv beta iota zeta
      delta [bind ret finish lift exit_module exec_command with_tmpdir
             decompile_crushmap world trace].

Section Runs.

Variable W : Type.
Variable C : collaborators W.
Variable p : params.
Variable w : W.

(** The run up to the branch on [state]: the rule dump is the one command
    executed. *)
Lemma main_after_dump rc0 out0 err0 w0 :
  check_mode p = false ->
  run_command C (get_rule C p) w = ((rc0, out0, err0), w0) ->
  main C p w =
  let v := {| rc := rc0; cmd := get_rule C p; out := out0; err := err0;
              changed := false |} in
  let st := {| world := w0; trace := [get_rule C p] |} in
  match (if str_eqb (state p) (lit "present") then present C p v
         else if str_eqb (state p) (lit "absent") then absent C p v
         else ret v) st with
  | (inl v', st') =>
      (ExitJson {| r_cmd := Some (cmd v'); r_rc := rc v';
                   r_stdout := rstrip (out v') [CR; LF];
                   r_stderr := rstrip (err v') [CR; LF];
                   r_changed := changed v' |}, st')
  | (inr o, st') => (o, st')
  end.
Proof.
  intros Hcheck Hrun.
  unfold main, main_body; rewrite Hcheck.
  unfold bind at 1, exec_command at 1; cbn [world trace app].
  rewrite Hrun; cbn [set_locals].
  unfold bind at 1.
  cbv zeta.
  match goal with
  | |- context [(if str_eqb (state p) (lit "present") then ?a else ?b) ?st] =>
      destruct ((if str_eqb (state p) (lit "present") then a else b) st)
        as [[v' | o] st']
  end; reflexivity.
Qed.

Lemma rstrip_does_not_exist :
  rstrip (does_not_exist p) [CR; LF] = does_not_exist p.
Proof.
  unfold does_not_exist.
  change (lit " doesn't exist") with (lit " doesn't exis" ++ [116%N]).
  rewrite !app_assoc; apply rstrip_keep; reflexivity.
Qed.

Lemma rstrip_failed (stage out : str) :
  rstrip ((stage ++ [32%N]) ++ out) [CR; LF] =
  (stage ++ [32%N]) ++ rstrip out [CR; LF].
Proof. apply rstrip_app; reflexivity. Qed.

Lemma opt_eqb_neq (a b : option str) : a <> b -> opt_eqb a b = false.
Proof.
  intros H; destruct (opt_eqb a b) eqn:E; [|reflexivity].
  apply opt_eqb_eq in E; contradiction.
Qed.

(** The [present] branch for a rule that exists, up to the comparison with
    the desired rule. *)
Lemma present_existing out0 err0 st rule code existing :
  json_loads C out0 = Ok rule ->
  getitem rule (lit "type") = Ok code ->
  RULE_TYPES code = Ok existing ->
  let v := {| rc := 0; cmd := get_rule C p; out := out0; err := err0;
              changed := false |} in
  present C p v st =
  if negb (opt_eqb (rule_type p) (Some existing))
  then (inr (FailJson (cannot_convert p) false 1), st)
  else
    bind (if opt_eqb (rule_type p) (Some (lit "replicated"))
          then lift (need_changes p rule) else ret false)
      (fun differs : bool =>
         if differs then
           bind (decompile_crushmap C p) (fun res =>
             let '(rc, cmd, out, err) := res in
             if negb (Z.eqb rc 0) then exit_module out rc cmd err false
             else
               bind (lift (patch_content p out)) (fun patched_crushmap =>
               bind (install_crushmap C p patched_crushmap) (fun res =>
               ret (set_locals res true))))
         else ret v) st.
Proof.
  intros Hjson Htype Hexisting v.
  unfold present; cbn [rc out changed v Z.eqb negb].
  rewrite Hjson; unfold bind at 1; cbn [lift ret].
  rewrite Htype; unfold bind at 1; cbn [lift ret].
  rewrite Hexisting; unfold bind at 1; cbn [lift ret].
  destruct (negb (opt_eqb (rule_type p) (Some existing))); reflexivity.
Qed.

(** C10: when [state] is [absent] and the rule dump exits nonzero, the run
    (not in check mode, which executes nothing) ends through [exit_module]
    with return code 0, [changed] false and the message that the rule doesn't
    exist; the rule dump is the only command executed, so the removal command
    is not. *)
Theorem absent_rule_missing rc0 out0 err0 w0 :
  check_mode p = false ->
  state p = lit "absent" ->
  run_command C (get_rule C p) w = ((rc0, out0, err0), w0) ->
  rc0 <> 0%Z ->
  main C p w =
    (ExitJson {| r_cmd := Some (get_rule C p);
                 r_rc := 0;
                 r_stdout :=
                   lit "Crush Rule " ++ name p ++ lit " doesn't exist";
                 r_stderr := rstrip err0 [CR; LF];
                 r_changed := false |},
     {| world := w0; trace := [get_rule C p] |}) /\
  ~ In (remove_rule C p) (trace (snd (main C p w))).
Proof.
  intros Hcheck Hstate Hrun Hrc.
  assert (E : main C p w =
    (ExitJson {| r_cmd := Some (get_rule C p);
                 r_rc := 0;
                 r_stdout :=
                   lit "Crush Rule " ++ name p ++ lit " doesn't exist";
                 r_stderr := rstrip err0 [CR; LF];
                 r_changed := false |},
     {| world := w0; trace := [get_rule C p] |})).
  { rewrite (main_after_dump rc0 out0 err0 w0 Hcheck Hrun), Hstate.
    change (str_eqb (lit "absent") (lit "present")) with false.
    change (str_eqb (lit "absent") (lit "absent")) with true.
    cbv zeta; unfold absent; cbn [rc cmd out err changed].
    apply Z.eqb_neq in Hrc; rewrite Hrc; cbn [ret rc cmd out err changed].
    rewrite rstrip_does_not_exist; reflexivity. }
  split; [exact E|].
  rewrite E; cbn [snd trace].
  intros [H | []]; symmetry in H; revert H; apply remove_rule_not_get_rule.
Qed.

(** C5: when [state] is [present] and the rule dump succeeds with a rule
    whose type is not the desired [rule_type], the run (not in check mode)
    ends at once through [fail_json] with [changed] false and return code 1;
    the rule dump is the only command executed. *)
Theorem type_change_rejected out0 err0 w0 rule code existing :
  check_mode p = false ->
  state p = lit "present" ->
  run_command C (get_rule C p) w = ((0%Z, out0, err0), w0) ->
  json_loads C out0 = Ok rule ->
  getitem rule (lit "type") = Ok code ->
  RULE_TYPES code = Ok existing ->
  rule_type p <> Some existing ->
  main C p w =
    (FailJson (lit "Can not convert crush rule " ++ name p ++ lit " to " ++
               format_opt (rule_type p)) false 1,
     {| world := w0; trace := [get_rule C p] |}).
Proof.
  intros Hcheck Hstate Hrun Hjson Htype Hexisting Hdiff.
  rewrite (main_after_dump 0 out0 err0 w0 Hcheck Hrun), Hstate.
  change (str_eqb (lit "present") (lit "present")) with true.
  cbv zeta; rewrite (present_existing out0 err0 _ rule code existing Hjson
                       Htype Hexisting).
  rewrite (opt_eqb_neq _ _ Hdiff); reflexivity.
Qed.

(** C8: when [state] is [present] and the dumped rule is replicated, as
    desired, with no step that diverges from the desired root, class and
    failure domain, [need_changes] returns false and the run (not in check
    mode) ends through [exit_module] with [changed] false; the rule dump is
    the only command executed: nothing is decompiled, compiled or
    installed. *)
Theorem matching_rule_is_left_alone out0 err0 w0 rule code steps kinds :
  check_mode p = false ->
  state p = lit "present" ->
  run_command C (get_rule C p) w = ((0%Z, out0, err0), w0) ->
  json_loads C out0 = Ok rule ->
  getitem rule (lit "type") = Ok code ->
  RULE_TYPES code = Ok (lit "replicated") ->
  rule_type p = Some (lit "replicated") ->
  getitem rule (lit "steps") = Ok (JList steps) ->
  Forall2 describes steps kinds ->
  (forall k, In k kinds -> diverges p k = false) ->
  need_changes p rule = Ok false /\
  main C p w =
    (ExitJson {| r_cmd := Some (get_rule C p);
                 r_rc := 0;
                 r_stdout := rstrip out0 [CR; LF];
                 r_stderr := rstrip err0 [CR; LF];
                 r_changed := false |},
     {| world := w0; trace := [get_rule C p] |}).
Proof.
  intros Hcheck Hstate Hrun Hjson Htype Hexisting Hdesired Hsteps Hkinds Hsame.
  assert (Hneed : need_changes p rule = Ok false).
  { rewrite (need_changes_kinds p rule steps kinds Hsteps Hkinds).
    f_equal; apply existsb_none; exact Hsame. }
  split; [exact Hneed|].
  rewrite (main_after_dump 0 out0 err0 w0 Hcheck Hrun), Hstate.
  change (str_eqb (lit "present") (lit "present")) with true.
  cbv zeta; rewrite (present_existing out0 err0 _ rule code (lit "replicated")
                       Hjson Htype Hexisting).
  rewrite Hdesired.
  change (opt_eqb (Some (lit "replicated")) (Some (lit "replicated")))
    with true.
  cbn [negb]; rewrite Hneed; reflexivity.
Qed.

(** C4: when the rule has to be changed and the dump of the map or its
    decompilation exits nonzero, the run ends there through [exit_module]
    with that exit code, [changed] false, the failed command, its standard
    error, and as message the name of the failed stage of
    [decompile_crushmap] ([decompile of the CRUSH map failed with output: ],
    or [dump of ...] when the dump failed) followed by what the command
    printed.  The commands executed are the rule dump, the map dump and, when
    it is the one that failed, the decompilation: no compile and no install
    command is among them. *)
Theorem decompile_failure_short_circuits out0 err0 w0 rule code
    tmpdirname w1 rc1 out1 err1 w2 rc2 out2 err2 w3 :
  check_mode p = false ->
  state p = lit "present" ->
  run_command C (get_rule C p) w = ((0%Z, out0, err0), w0) ->
  json_loads C out0 = Ok rule ->
  getitem rule (lit "type") = Ok code ->
  RULE_TYPES code = Ok (lit "replicated") ->
  rule_type p = Some (lit "replicated") ->
  need_changes p rule = Ok true ->
  mkdtemp C w0 = (tmpdirname, w1) ->
  run_command C (dump_crush_map C p tmpdirname) w1 = ((rc1, out1, err1), w2) ->
  run_command C (decompile_map C p tmpdirname) w2 = ((rc2, out2, err2), w3) ->
  rc1 <> 0%Z \/ rc2 <> 0%Z ->
  main C p w =
    (if Z.eqb rc1 0 then
       (ExitJson {| r_cmd := Some (decompile_map C p tmpdirname);
                    r_rc := rc2;
                    r_stdout :=
                      lit "decompile of the CRUSH map failed with output: " ++
                      rstrip out2 [CR; LF];
                    r_stderr := rstrip err2 [CR; LF];
                    r_changed := false |},
        {| world := cleanup C tmpdirname w3;
           trace := [get_rule C p; dump_crush_map C p tmpdirname;
                     decompile_map C p tmpdirname] |})
     else
       (ExitJson {| r_cmd := Some (dump_crush_map C p tmpdirname);
                    r_rc := rc1;
                    r_stdout :=
                      lit "dump of the CRUSH map failed with output: " ++
                      rstrip out1 [CR; LF];
                    r_stderr := rstrip err1 [CR; LF];
                    r_changed := false |},
        {| world := cleanup C tmpdirname w2;
           trace := [get_rule C p; dump_crush_map C p tmpdirname] |})) /\
  forall t,
    ~ In (compile_map C p t) (trace (snd (main C p w))) /\
    ~ In (install_map C p t) (trace (snd (main C p w))).
Proof.
  intros Hcheck Hstate Hrun Hjson Htype Hexisting Hdesired Hneed Htmp
    Hdump Hdecompile Hfail.
  match goal with |- ?lhs = ?rhs /\ _ => assert (E : lhs = rhs) end.
  { rewrite (main_after_dump 0 out0 err0 w0 Hcheck Hrun), Hstate.
    change (str_eqb (lit "present") (lit "present")) with true.
    cbv zeta; rewrite (present_existing out0 err0 _ rule code
                         (lit "replicated") Hjson Htype Hexisting).
    rewrite Hdesired.
    change (opt_eqb (Some (lit "replicated")) (Some (lit "replicated")))
      with true.
    cbn [negb]; rewrite Hneed.
    run_on; rewrite Htmp; run_on; rewrite Hdump; run_on.
    destruct (Z.eqb_spec rc1 0) as [-> | Hrc1]; cbn [negb].
    - destruct Hfail as [Hfail | Hrc2]; [contradiction|].
      run_on; rewrite Hdecompile; run_on.
      apply Z.eqb_neq in Hrc2; rewrite Hrc2; cbn [negb]; run_on.
      rewrite Hrc2; cbn [negb].
      change decompile_failed
        with (lit "decompile of the CRUSH map failed with output:" ++ [32%N]).
      rewrite rstrip_failed; reflexivity.
    - apply Z.eqb_neq in Hrc1; run_on; rewrite Hrc1; cbn [negb].
      change dump_failed
        with (lit "dump of the CRUSH map failed with output:" ++ [32%N]).
      rewrite rstrip_failed; reflexivity. }
  split; [exact E|].
  intros t; rewrite E.
  destruct (Z.eqb rc1 0); cbn [snd trace In]; split; intros H;
    repeat (destruct H as [H | H]; [symmetry in H; revert H|]);
    try contradiction.
  - apply compile_map_not_get_rule.
  - apply compile_map_not_dump.
  - apply compile_map_not_decompile.
  - apply install_map_not_get_rule.
  - apply install_map_not_dump.
  - apply install_map_not_decompile.
  - apply compile_map_not_get_rule.
  - apply compile_map_not_dump.
  - apply install_map_not_get_rule.
  - apply install_map_not_dump.
Qed.

End Runs.

Lemma absent_rule_missing_witness :
  let w := [(2%Z, [], no_such_rule)] in
  check_mode absent_foo = false /\
  state absent_foo = lit "absent" /\
  run_command scripted (get_rule scripted absent_foo) w =
    ((2%Z, [], no_such_rule), []) /\
  2%Z <> 0%Z /\
  main scripted absent_foo w =
    (ExitJson {| r_cmd := Some (get_rule scripted absent_foo);
                 r_rc := 0;
                 r_stdout := lit "Crush Rule foo doesn't exist";
                 r_stderr := no_such_rule;
                 r_changed := false |},
     {| world := []; trace := [get_rule scripted absent_foo] |}).
Proof.
  intros w.
  split; [reflexivity|]; split; [reflexivity|]; split; [reflexivity|].
  split; [discriminate|].
  exact (proj1 (absent_rule_missing script scripted absent_foo w 2 []
                  no_such_rule [] eq_refl eq_refl eq_refl
                  (fun H => Z.neq_sym _ _ (Z.lt_neq 0 2 eq_refl) H))).
Defined.

Lemma type_change_rejected_witness :
  let w := [(0%Z, lit "{rule}", [])] in
  run_command scripted (get_rule scripted erasure_foo) w =
    ((0%Z, lit "{rule}", []), []) /\
  json_loads scripted (lit "{rule}") = Ok rule_default_host /\
  getitem rule_default_host (lit "type") = Ok (JInt 1) /\
  RULE_TYPES (JInt 1) = Ok (lit "replicated") /\
  rule_type erasure_foo <> Some (lit "replicated") /\
  main scripted erasure_foo w =
    (FailJson (lit "Can not convert crush rule foo to erasure") false 1,
     {| world := []; trace := [get_rule scripted erasure_foo] |}).
Proof.
  intros w.
  assert (Hdiff : rule_type erasure_foo <> Some (lit "replicated"))
    by discriminate.
  repeat (split; [reflexivity|]); split; [exact Hdiff|].
  exact (type_change_rejected script scripted erasure_foo w (lit "{rule}") []
           [] rule_default_host (JInt 1) (lit "replicated")
           eq_refl eq_refl eq_refl eq_refl eq_refl eq_refl Hdiff).
Defined.

Lemma matching_rule_is_left_alone_witness :
  let p := replicated "foo" "default" "host" None in
  let w := [(0%Z, lit "{rule}", [])] in
  let steps :=
    [step_take (lit "default"); step_chooseleaf (lit "host"); step_emit] in
  let kinds :=
    [TakeStep (lit "default"); ChooseleafStep (lit "host"); OtherStep] in
  Forall2 describes steps kinds /\
  (forall k, In k kinds -> diverges p k = false) /\
  need_changes p rule_default_host = Ok false /\
  main scripted p w =
    (ExitJson {| r_cmd := Some (get_rule scripted p);
                 r_rc := 0;
                 r_stdout := lit "{rule}";
                 r_stderr := [];
                 r_changed := false |},
     {| world := []; trace := [get_rule scripted p] |}).
Proof.
  intros p w steps kinds.
  assert (Hkinds : Forall2 describes steps kinds) by describe_steps.
  assert (Hsame : forall k, In k kinds -> diverges p k = false).
  { intros k [<- | [<- | [<- | []]]]; reflexivity. }
  split; [exact Hkinds|]; split; [exact Hsame|].
  exact (matching_rule_is_left_alone script scripted p w (lit "{rule}") [] []
           rule_default_host (JInt 1) steps kinds
           eq_refl eq_refl eq_refl eq_refl eq_refl eq_refl eq_refl eq_refl
           Hkinds Hsame).
Defined.

Lemma decompile_failure_short_circuits_witness :
  let p := replicated "foo" "default" "rack" None in
  let failure := (2%Z, lit "boom", lit "bad magic number") in
  let w := [(0%Z, lit "{rule}", []); (0%Z, [], []); failure] in
  let tmpdirname := lit "/tmp/tmpk3x" in
  need_changes p rule_default_host = Ok true /\
  run_command scripted (decompile_map scripted p tmpdirname) [failure] =
    (failure, []) /\
  main scripted p w =
    (ExitJson {| r_cmd := Some (decompile_map scripted p tmpdirname);
                 r_rc := 2;
                 r_stdout :=
                   lit "decompile of the CRUSH map failed with output: boom";
                 r_stderr := lit "bad magic number";
                 r_changed := false |},
     {| world := [];
        trace := [get_rule scripted p; dump_crush_map scripted p tmpdirname;
                  decompile_map scripted p tmpdirname] |}).
Proof.
  intros p failure w tmpdirname.
  split; [reflexivity|]; split; [reflexivity|].
  exact (proj1 (decompile_failure_short_circuits script scripted p w
                  (lit "{rule}") [] [(0%Z, [], []); failure]
                  rule_default_host (JInt 1)
                  tmpdirname [(0%Z, [], []); failure] 0 [] [] [failure]
                  2 (lit "boom") (lit "bad magic number") []
                  eq_refl eq_refl eq_refl eq_refl eq_refl eq_refl eq_refl
                  eq_refl eq_refl eq_refl eq_refl
                  (or_intror
                     (fun H => Z.neq_sym _ _ (Z.lt_neq 0 2 eq_refl) H)))).
Defined.

(** * Further properties of the module *)

(** ** More on the string methods *)

Lemma startswith_self (a b : str) : startswith (a ++ b) a = true.
Proof.
  induction a as [|c a IH]; [reflexivity|].
  cbn [app startswith]; rewrite N.eqb_refl; exact IH.
Qed.

Lemma skipn_startswith (s old : str) :
  startswith s old = true -> old ++ skipn (length old) s = s.
Proof.
  revert s; induction old as [|d old IH]; intros s E; [reflexivity|].
  destruct s as [|x s]; [discriminate E|]; cbn [startswith] in E.
  apply andb_true_iff in E as [Ex E]; apply N.eqb_eq in Ex; subst x.
  cbn [length skipn app]; f_equal; apply IH, E.
Qed.

Lemma replace_from_same (s old : str) (d : char) (skip : nat) :
  replace_from skip s (d :: old) (d :: old) = skipn skip s.
Proof.
  revert skip; induction s as [|c s IH]; intros skip.
  - destruct skip; reflexivity.
  - destruct skip as [|k]; cbn [replace_from skipn]; [|apply IH].
    destruct (startswith (c :: s) (d :: old)) eqn:E.
    + cbn [length Nat.sub]; rewrite Nat.sub_0_r, IH.
      apply (skipn_startswith (c :: s) (d :: old)), E.
    + rewrite IH; reflexivity.
Qed.

(** Replacing a text by itself changes nothing. *)
Lemma replace_same (s old : str) : replace s old old = s.
Proof.
  destruct old as [|d old].
  - unfold replace; cbn [app].
    induction s as [|c s IH]; [reflexivity|].
    cbn [flat_map app]; rewrite IH; reflexivity.
  - unfold replace; apply (replace_from_same s old d 0).
Qed.

Lemma replace_from_skip (a b old new : str) :
  replace_from (length a) (a ++ b) old new = replace_from 0 b old new.
Proof.
  induction a as [|c a IH]; [reflexivity|].
  cbn [length app replace_from]; exact IH.
Qed.

(** The first occurrence of [old], when none begins before it, is replaced
    and the scan goes on behind it. *)
Lemma replace_first (pre old post new : str) :
  old <> [] ->
  clear_before pre (old ++ post) old = true ->
  replace (pre ++ old ++ post) old new = pre ++ new ++ replace post old new.
Proof.
  intros Hold Hclear; destruct old as [|d old]; [contradiction|].
  unfold replace; change ((d :: old) ++ post) with (d :: old ++ post) in *.
  induction pre as [|c pre IH].
  - cbn [app replace_from].
    replace (startswith (d :: old ++ post) (d :: old)) with true
      by (symmetry; apply (startswith_self (d :: old) post)).
    cbn [length Nat.sub]; rewrite Nat.sub_0_r, replace_from_skip; reflexivity.
  - cbn [clear_before] in Hclear.
    apply andb_true_iff in Hclear as [Hc Hclear]; apply negb_true_iff in Hc.
    cbn [app replace_from]; cbn [app] in Hc; rewrite Hc.
    rewrite (IH Hclear); reflexivity.
Qed.

(** A text in which [old] does not occur is left as it is. *)
Lemma replace_absent (s old new : str) :
  clear_before s [] old = true -> old <> [] -> replace s old new = s.
Proof.
  intros Hclear Hold; destruct old as [|d old]; [contradiction|].
  unfold replace; induction s as [|c s IH]; [reflexivity|].
  cbn [clear_before] in Hclear.
  apply andb_true_iff in Hclear as [Hc Hclear]; apply negb_true_iff in Hc.
  rewrite app_nil_r in Hc; cbn [replace_from]; rewrite Hc, (IH Hclear).
  reflexivity.
Qed.

(** ** The patterns recognise the lines they are written for *)

Lemma firstn_length_app (a b : str) : firstn (length a) (a ++ b) = a.
Proof.
  induction a as [|c a IH]; [reflexivity | cbn; rewrite IH; reflexivity].
Qed.

Lemma skipn_length_app (a b : str) : skipn (length a) (a ++ b) = b.
Proof. induction a as [|c a IH]; [reflexivity | exact IH]. Qed.

(** A greedy repetition takes the whole run when the rest of the pattern
    matches behind it. *)
Lemma run_star_greedy cls k pos a rest c m :
  forallb cls a = true -> stops cls rest ->
  k (pos + length a) rest c = Some m ->
  run_star cls k pos (a ++ rest) c = Some m.
Proof.
  revert pos; induction a as [|x a IH]; intros pos Ha Hrest Hk.
  - rewrite Nat.add_0_r in Hk; destruct rest as [|y rest]; [exact Hk|].
    cbn [app run_star]; cbn [stops] in Hrest; rewrite Hrest; exact Hk.
  - cbn [forallb] in Ha; apply andb_true_iff in Ha as [Hx Ha].
    cbn [app run_star]; rewrite Hx.
    rewrite (IH (S pos) Ha Hrest); [reflexivity|].
    cbn [length] in Hk; rewrite Nat.add_succ_r in Hk; exact Hk.
Qed.

Lemma run_Seq_intro r1 r2 k pos s c m :
  run r1 (run r2 k) pos s c = Some m -> run (Seq r1 r2) k pos s c = Some m.
Proof. exact (fun H => H). Qed.

Lemma run_Bol_intro k s c m :
  k 0 s c = Some m -> run Bol k 0 s c = Some m.
Proof. exact (fun H => H). Qed.

Lemma run_Star_intro cls k pos a rest c m :
  forallb cls a = true -> stops cls rest ->
  k (pos + length a) rest c = Some m ->
  run (Star cls) k pos (a ++ rest) c = Some m.
Proof. apply run_star_greedy. Qed.

Lemma run_Lit_intro l k pos rest c m :
  k (pos + length l) rest c = Some m ->
  run (Lit l) k pos (l ++ rest) c = Some m.
Proof.
  intros H; cbn [run]; rewrite startswith_self, skipn_length_app; exact H.
Qed.

Lemma run_Group_Plus_intro n cls k pos word rest c m :
  word <> [] -> forallb cls word = true -> stops cls rest ->
  k (pos + length word) rest ((n, word) :: c) = Some m ->
  run (Group n (Plus cls)) k pos (word ++ rest) c = Some m.
Proof.
  intros Hne Hword Hrest Hk; destruct word as [|x word]; [contradiction|].
  cbn [forallb] in Hword; apply andb_true_iff in Hword as [Hx Hword].
  cbn [run app]; rewrite Hx.
  apply run_star_greedy; [exact Hword | exact Hrest|].
  cbv beta.
  replace (S pos + length word - pos) with (length (x :: word))
    by (cbn [length]; lia).
  change (x :: word ++ rest) with ((x :: word) ++ rest).
  rewrite (firstn_length_app (x :: word) rest).
  cbn [length] in Hk; rewrite Nat.add_succ_r in Hk; exact Hk.
Qed.

Lemma run_Group_Plus_whole n cls k pos word c m :
  word <> [] -> forallb cls word = true ->
  k (pos + length word) [] ((n, word) :: c) = Some m ->
  run (Group n (Plus cls)) k pos word c = Some m.
Proof.
  intros Hne Hword Hk; rewrite <- (app_nil_r word) at 1.
  apply run_Group_Plus_intro; [exact Hne | exact Hword | exact I | exact Hk].
Qed.

Lemma is_word_inv (s : str) :
  is_word s = true -> s <> [] /\ forallb non_space s = true.
Proof.
  destruct s; [discriminate | intros H; split; [discriminate | exact H]].
Qed.

(** X1: the [step take] pattern matches every line made of white space, the
    words [step take], a root word and optionally [class] and a class
    word; group 1 is the root, group 3 the class and group 2 the class with
    the word [class] before it. *)
Theorem reg_bucket_root_recognises (indent root : str) (class : option str) :
  forallb is_space indent = true ->
  is_word root = true ->
  match class with Some c => is_word c = true | None => True end ->
  re_match reg_bucket_root (take_line indent root class) =
  Some match class with
       | Some c => [(2, lit " class " ++ c); (3, c); (1, root)]
       | None => [(1, root)]
       end.
Proof.
  intros Hindent Hroot Hclass.
  apply is_word_inv in Hroot as [Hne Hroot].
  unfold re_match, take_line; cbv [reg_bucket_root seq_of].
  apply run_Seq_intro, run_Bol_intro.
  apply run_Seq_intro, run_Star_intro; [exact Hindent | reflexivity|].
  apply run_Seq_intro, run_Lit_intro, run_Seq_intro.
  destruct class as [cls|].
  - apply is_word_inv in Hclass as [Hcne Hcls].
    apply run_Group_Plus_intro; [exact Hne | exact Hroot | reflexivity|].
    apply run_Seq_intro.
    match goal with
    | |- run (Opt ?r) ?k ?pos ?s ?c = _ =>
        change (match run r k pos s c with
                | Some m => Some m
                | None => k pos s c
                end = Some [(2, lit " class " ++ cls); (3, cls); (1, root)]);
        assert (E : run r k pos s c =
                    Some [(2, lit " class " ++ cls); (3, cls); (1, root)]);
        [|rewrite E; reflexivity]
    end.
    match goal with
    | |- run (Group 2 ?r) ?k ?pos ?s ?c = _ =>
        change (run r (fun pos' s' c' =>
                         k pos' s' ((2, firstn (pos' - pos) s) :: c'))
                    pos s c =
                Some [(2, lit " class " ++ cls); (3, cls); (1, root)])
    end.
    apply run_Seq_intro, run_Lit_intro.
    apply run_Group_Plus_whole; [exact Hcne | exact Hcls|].
    cbv beta; cbn [run].
    match goal with
    | |- context [firstn ?n (lit " class " ++ cls)] =>
        replace n with (length (lit " class " ++ cls))
          by (rewrite length_app; lia)
    end.
    rewrite <- (app_nil_r (lit " class " ++ cls)) at 2.
    rewrite firstn_length_app; reflexivity.
  - apply run_Group_Plus_intro; [exact Hne | exact Hroot | exact I|].
    reflexivity.
Qed.

(** X2: the [step chooseleaf] pattern matches every line made of white
    space, the words [step chooseleaf firstn 0 type] and a word, which is
    group 1. *)
Theorem reg_failure_domain_recognises (indent domain : str) :
  forallb is_space indent = true ->
  is_word domain = true ->
  re_match reg_failure_domain (chooseleaf_line indent domain) =
  Some [(1, domain)].
Proof.
  intros Hindent Hdomain.
  apply is_word_inv in Hdomain as [Hne Hdomain].
  unfold re_match, chooseleaf_line; cbv [reg_failure_domain seq_of].
  apply run_Seq_intro, run_Bol_intro.
  apply run_Seq_intro, run_Star_intro; [exact Hindent | reflexivity|].
  apply run_Seq_intro, run_Lit_intro, run_Seq_intro.
  apply run_Group_Plus_whole; [exact Hne | exact Hdomain|].
  reflexivity.
Qed.

(** ** The patterns match nothing else *)

Lemma run_star_shape cls k pos s c m :
  run_star cls k pos s c = Some m ->
  exists a rest,
    s = a ++ rest /\ forallb cls a = true /\
    k (pos + length a) rest c = Some m.
Proof.
  revert pos; induction s as [|x s IH]; intros pos H; cbn [run_star] in H.
  - exists [], []; rewrite Nat.add_0_r; auto.
  - destruct (cls x) eqn:Hx.
    + destruct (run_star cls k (S pos) s c) as [m'|] eqn:E.
      * inversion H; subst m'; clear H.
        apply IH in E as (a & rest & -> & Ha & Hk).
        exists (x :: a), rest; cbn [forallb length app].
        rewrite Hx, Ha, Nat.add_succ_r; auto.
      * exists [], (x :: s); rewrite Nat.add_0_r; auto.
    + exists [], (x :: s); rewrite Nat.add_0_r; auto.
Qed.

Lemma run_Lit_shape l k pos s c m :
  run (Lit l) k pos s c = Some m ->
  exists rest, s = l ++ rest /\ k (pos + length l) rest c = Some m.
Proof.
  cbn [run]; destruct (startswith s l) eqn:E; [|discriminate].
  intros H; exists (skipn (length l) s); split; [|exact H].
  symmetry; apply skipn_startswith, E.
Qed.

Lemma run_Group_Plus_shape n cls k pos s c m :
  run (Group n (Plus cls)) k pos s c = Some m ->
  exists word rest,
    s = word ++ rest /\ word <> [] /\ forallb cls word = true /\
    k (pos + length word) rest ((n, word) :: c) = Some m.
Proof.
  cbn [run]; destruct s as [|x s]; [discriminate|].
  destruct (cls x) eqn:Hx; [|discriminate].
  intros H; apply run_star_shape in H as (a & rest & -> & Ha & Hk).
  exists (x :: a), rest; cbn [forallb length]; rewrite Hx, Ha.
  repeat split; [discriminate|].
  replace (S pos + length a - pos) with (length (x :: a)) in Hk
    by (cbn [length]; lia).
  change (x :: a ++ rest) with ((x :: a) ++ rest) in Hk.
  rewrite firstn_length_app in Hk.
  rewrite Nat.add_succ_r; exact Hk.
Qed.

Lemma run_Eol_shape k pos s c m :
  run Eol k pos s c = Some m -> (s = [] \/ s = [LF]) /\ k pos s c = Some m.
Proof.
  cbn [run]; destruct s as [|x [|y s]]; auto; try discriminate.
  destruct (N.eqb_spec x LF) as [->|]; [auto | discriminate].
Qed.

Lemma is_word_intro (s : str) :
  s <> [] -> forallb non_space s = true -> is_word s = true.
Proof. destruct s; [contradiction | auto]. Qed.

(** X3: a line the [step take] pattern matches is white space, the words
    [step take], a root word and optionally [class] and a class word, with
    at most a newline behind; the groups are those words. *)
Theorem reg_bucket_root_sound (line : str) (m : captures) :
  re_match reg_bucket_root line = Some m ->
  exists indent root class tail,
    forallb is_space indent = true /\
    is_word root = true /\
    match class with Some c => is_word c = true | None => True end /\
    (tail = [] \/ tail = [LF]) /\
    line = take_line indent root class ++ tail /\
    m = match class with
        | Some c => [(2, lit " class " ++ c); (3, c); (1, root)]
        | None => [(1, root)]
        end.
Proof.
  unfold re_match; cbv [reg_bucket_root seq_of]; intros H.
  apply run_Seq_inv, run_Bol_inv, run_Seq_inv in H.
  apply run_star_shape in H as (indent & s1 & -> & Hindent & H).
  apply run_Seq_inv, run_Lit_shape in H as (s2 & -> & H).
  apply run_Seq_inv, run_Group_Plus_shape in H
    as (root & s3 & -> & Hne & Hroot & H).
  apply run_Seq_inv, run_Opt_inv in H as [H | H].
  - match type of H with
    | run (Group 2 ?r) ?k ?pos ?s ?c = _ =>
        change (run r (fun pos' s' c' =>
                         k pos' s' ((2, firstn (pos' - pos) s) :: c'))
                    pos s c = Some m) in H
    end.
    apply run_Seq_inv, run_Lit_shape in H as (s4 & -> & H).
    apply run_Group_Plus_shape in H as (cls & tail & -> & Hcne & Hcls & H).
    cbv beta in H; apply run_Eol_shape in H as [Htail H].
    match type of H with
    | context [firstn ?n ?s] =>
        replace n with (length (lit " class " ++ cls)) in H
          by (rewrite length_app; lia);
        replace s with ((lit " class " ++ cls) ++ tail) in H
          by (rewrite <- app_assoc; reflexivity)
    end.
    rewrite firstn_length_app in H; inversion H; subst m.
    exists indent, root, (Some cls), tail; unfold take_line.
    repeat split; auto using is_word_intro.
    rewrite <- !app_assoc; reflexivity.
  - apply run_Eol_shape in H as [Htail H]; inversion H; subst m.
    exists indent, root, None, s3; unfold take_line.
    repeat split; auto using is_word_intro.
    rewrite <- !app_assoc; reflexivity.
Qed.

(** X4: a line the [step chooseleaf] pattern matches is white space, the
    words [step chooseleaf firstn 0 type] and a word, which is group 1, with
    at most a newline behind. *)
Theorem reg_failure_domain_sound (line : str) (m : captures) :
  re_match reg_failure_domain line = Some m ->
  exists indent domain tail,
    forallb is_space indent = true /\
    is_word domain = true /\
    (tail = [] \/ tail = [LF]) /\
    line = chooseleaf_line indent domain ++ tail /\
    m = [(1, domain)].
Proof.
  unfold re_match; cbv [reg_failure_domain seq_of]; intros H.
  apply run_Seq_inv, run_Bol_inv, run_Seq_inv in H.
  apply run_star_shape in H as (indent & s1 & -> & Hindent & H).
  apply run_Seq_inv, run_Lit_shape in H as (s2 & -> & H).
  apply run_Seq_inv, run_Group_Plus_shape in H
    as (domain & tail & -> & Hne & Hdomain & H).
  apply run_Eol_shape in H as [Htail H]; inversion H; subst m.
  exists indent, domain, tail; unfold chooseleaf_line.
  repeat split; auto using is_word_intro.
  rewrite <- !app_assoc; reflexivity.
Qed.

(** ** The editor, line by line *)

Lemma patch_lines_total p root domain (inside : bool) (lines : list str) :
  bucket_root p = Some root -> bucket_type p = Some domain ->
  exists lines', patch_lines p inside lines = Ok lines'.
Proof.
  intros Hroot Hdomain; revert inside.
  induction lines as [|l ls IH]; intros inside; cbn [patch_lines]; [eauto|].
  destruct (startswith l (rule_prefix (name p))).
  - destruct (IH true) as (ls' & ->); cbn [rbind]; eauto.
  - destruct (inside && startswith l (lit "}")); [eauto|].
    destruct inside.
    + destruct (patch_line_total p root domain l Hroot Hdomain) as (l' & ->).
      destruct (IH true) as (ls' & ->); cbn [rbind]; eauto.
    + destruct (IH false) as (ls' & ->); cbn [rbind]; eauto.
Qed.

(** X5: with a root and a failure domain given, [patch_content] raises
    nothing, whatever the text. *)
Theorem patch_content_total (p : params) (root domain text : str) :
  bucket_root p = Some root ->
  bucket_type p = Some domain ->
  exists out, patch_content p text = Ok out.
Proof.
  intros Hroot Hdomain; unfold patch_content.
  destruct (patch_lines_total p root domain false (splitlines text)
              Hroot Hdomain) as (ls' & ->).
  cbn [rbind]; eauto.
Qed.

Lemma patch_content_total_witness :
  let p := replicated "foo" "rack1" "rack" None in
  exists out, patch_content p map_foobar_foo = Ok out.
Proof.
  exact (patch_content_total (replicated "foo" "rack1" "rack" None)
           (lit "rack1") (lit "rack") map_foobar_foo eq_refl eq_refl).
Defined.

(** A line that is changed is one of the two steps. *)
Lemma patch_line_changes_steps p line line' :
  patch_line p line = Ok line' -> line' = line \/ step_shaped line.
Proof.
  unfold patch_line.
  destruct (re_match reg_bucket_root line) as [m|] eqn:Em.
  - intros _; right.
    apply reg_bucket_root_sound in Em
      as (indent & root & class & tail & Hindent & _ & _ & _ & -> & _).
    exists indent, (root ++ class_suffix class ++ tail).
    split; [exact Hindent|]; left.
    unfold take_line, class_suffix; rewrite <- !app_assoc; reflexivity.
  - destruct (re_match reg_failure_domain line) as [m|] eqn:Ed.
    + intros _; right.
      apply reg_failure_domain_sound in Ed
        as (indent & domain & tail & Hindent & _ & _ & -> & _).
      exists indent, (domain ++ tail).
      split; [exact Hindent|]; right.
      unfold chooseleaf_line; rewrite <- !app_assoc; reflexivity.
    + intros H; inversion H; left; reflexivity.
Qed.

Lemma kept_refl (lines : list str) :
  Forall2 (fun l l' => l' = l \/ step_shaped l) lines lines.
Proof. induction lines; constructor; auto. Qed.

Lemma patch_lines_changes_steps p (inside : bool) lines lines' :
  patch_lines p inside lines = Ok lines' ->
  Forall2 (fun l l' => l' = l \/ step_shaped l) lines lines'.
Proof.
  revert inside lines'; induction lines as [|l ls IH]; intros inside lines';
    cbn [patch_lines].
  - intros H; inversion H; constructor.
  - destruct (startswith l (rule_prefix (name p))).
    + destruct (patch_lines p true ls) as [ls'|] eqn:E; cbn [rbind];
        [|discriminate].
      intros H; inversion H; constructor; [auto | apply (IH true), E].
    + destruct (inside && startswith l (lit "}")).
      * intros H; inversion H; apply kept_refl.
      * destruct inside.
        -- destruct (patch_line p l) as [l'|] eqn:El; cbn [rbind];
             [|discriminate].
           destruct (patch_lines p true ls) as [ls'|] eqn:E; cbn [rbind];
             [|discriminate].
           intros H; inversion H; constructor;
             [eapply patch_line_changes_steps, El | apply (IH true), E].
        -- destruct (patch_lines p false ls) as [ls'|] eqn:E; cbn [rbind];
             [|discriminate].
           intros H; inversion H; constructor; [auto | apply (IH false), E].
Qed.

(** X6: what [patch_content] returns is the join of as many lines as the
    input has, each of them the input line unless that line is a
    [step take] or a [step chooseleaf firstn 0 type] line: no other line,
    inside the block or outside, is touched. *)
Theorem patch_content_changes_steps_only (p : params) (text out : str) :
  patch_content p text = Ok out ->
  exists lines',
    out = join [LF] lines' /\
    length lines' = length (splitlines text) /\
    Forall2 (fun l l' => l' = l \/ step_shaped l) (splitlines text) lines'.
Proof.
  unfold patch_content.
  destruct (patch_lines p false (splitlines text)) as [ls'|] eqn:E;
    cbn [rbind]; [|discriminate].
  intros H; inversion H; subst out; exists ls'.
  apply patch_lines_changes_steps in E.
  split; [reflexivity|]; split; [|exact E].
  symmetry; eapply Forall2_length, E.
Qed.

Lemma patch_content_changes_steps_only_witness :
  let p := replicated "foo" "rack1" "rack" None in
  exists out lines',
    patch_content p map_foo = Ok out /\
    out = join [LF] lines' /\
    length lines' = length (splitlines map_foo) /\
    Forall2 (fun l l' => l' = l \/ step_shaped l) (splitlines map_foo) lines'.
Proof.
  intros p.
  destruct (patch_content p map_foo) as [out|] eqn:E; [|discriminate E].
  destruct (patch_content_changes_steps_only p map_foo out E)
    as (lines' & H1 & H2 & H3).
  exists out, lines'; auto.
Defined.

(** ** When the rewriting of a line does what is meant *)

Lemma root_replaced (indent root new_root : str) (class : option str) :
  root <> [] ->
  root_clear indent root class new_root ->
  replace (take_line indent root class) root new_root =
  take_line indent new_root class.
Proof.
  intros Hne [-> | [Hpre Hsuffix]]; [apply replace_same|].
  unfold take_line; fold (class_suffix class).
  rewrite !app_assoc, <- (app_assoc _ root).
  rewrite replace_first by assumption.
  rewrite (replace_absent _ _ _ Hsuffix Hne), <- !app_assoc; reflexivity.
Qed.

Lemma replace_last (pre old new : str) :
  old <> [] ->
  clear_before pre old old = true ->
  replace (pre ++ old) old new = pre ++ new.
Proof.
  intros Hne Hclear.
  rewrite <- (app_nil_r old) at 1.
  rewrite replace_first; [|exact Hne | rewrite app_nil_r; exact Hclear].
  destruct old; [contradiction | rewrite app_nil_r; reflexivity].
Qed.

Lemma take_line_None (indent root : str) :
  take_line indent root None = indent ++ lit "step take " ++ root.
Proof. unfold take_line; rewrite app_nil_r; reflexivity. Qed.

Lemma take_line_suffix (indent root class : str) :
  take_line indent root (Some class) =
  (indent ++ lit "step take " ++ root) ++ lit " class " ++ class.
Proof. unfold take_line; rewrite <- !app_assoc; reflexivity. Qed.

Lemma take_line_class (indent root class : str) :
  take_line indent root (Some class) =
  (indent ++ lit "step take " ++ root ++ lit " class ") ++ class.
Proof. unfold take_line; rewrite <- !app_assoc; reflexivity. Qed.

Lemma is_word_truthy (c : str) : is_word c = true -> truthy (Some c) = true.
Proof. destruct c; [discriminate | reflexivity]. Qed.

Section TakeLine.

Variable p : params.
Variables indent root new_root : str.
Hypothesis Hindent : forallb is_space indent = true.
Hypothesis Hroot : is_word root = true.
Hypothesis Hdesired : bucket_root p = Some new_root.

(** X7: on a [step take] line whose class is the desired one (none, or the
    same word) the root is replaced by [bucket_root] and nothing else
    changes, provided the old root occurs nowhere else in the line; a line
    that already has the desired root and class is returned as it is. *)
Theorem patch_line_root (class : option str) :
  match class with Some c => is_word c = true | None => True end ->
  device_class p = class ->
  root_clear indent root class new_root ->
  patch_line p (take_line indent root class) =
  Ok (take_line indent new_root class).
Proof.
  intros Hclass Hdc Hclear; unfold patch_line.
  rewrite (reg_bucket_root_recognises indent root class Hindent Hroot Hclass).
  rewrite Hdesired, Hdc.
  apply is_word_inv in Hroot as [Hne _].
  destruct class as [c|]; cbn [group Nat.eqb replace_opt rbind].
  - rewrite (root_replaced indent root new_root (Some c) Hne Hclear).
    rewrite (is_word_truthy c Hclass); cbn [andb replace_opt].
    rewrite replace_same; reflexivity.
  - rewrite (root_replaced indent root new_root None Hne Hclear).
    reflexivity.
Qed.

(** X8: on a [step take] line without a class, a desired class is appended
    behind the new root. *)
Theorem patch_line_class_added (class : str) :
  device_class p = Some class ->
  class <> [] ->
  root_clear indent root None new_root ->
  patch_line p (take_line indent root None) =
  Ok (take_line indent new_root (Some class)).
Proof.
  intros Hdc Hclass Hclear; unfold patch_line.
  rewrite (reg_bucket_root_recognises indent root None Hindent Hroot I).
  rewrite Hdesired, Hdc.
  apply is_word_inv in Hroot as [Hne _].
  cbn [group Nat.eqb replace_opt rbind].
  rewrite (root_replaced indent root new_root None Hne Hclear).
  destruct class as [|x class]; [contradiction|].
  cbn [truthy andb format_opt].
  rewrite take_line_None, take_line_suffix; reflexivity.
Qed.

(** X9: on a [step take] line with a class, when no class is desired, the
    word [class] and the class are removed behind the new root, provided
    they occur nowhere before their place. *)
Theorem patch_line_class_removed (class : str) :
  is_word class = true ->
  device_class p = None ->
  root_clear indent root (Some class) new_root ->
  clear_before (indent ++ lit "step take " ++ new_root)
    (lit " class " ++ class) (lit " class " ++ class) = true ->
  patch_line p (take_line indent root (Some class)) =
  Ok (take_line indent new_root None).
Proof.
  intros Hclass Hdc Hclear Hsuffix; unfold patch_line.
  rewrite (reg_bucket_root_recognises indent root (Some class) Hindent Hroot
             Hclass).
  rewrite Hdesired, Hdc.
  apply is_word_inv in Hroot as [Hne _].
  cbn [group Nat.eqb replace_opt rbind].
  rewrite (root_replaced indent root new_root (Some class) Hne Hclear).
  rewrite (is_word_truthy class Hclass); cbn [truthy andb replace_opt].
  rewrite take_line_suffix, take_line_None.
  rewrite replace_last; [rewrite app_nil_r; reflexivity | discriminate|].
  exact Hsuffix.
Qed.

(** X10: on a [step take] line with a class, a different desired class
    takes its place behind the new root, provided the old class occurs
    nowhere before its place. *)
Theorem patch_line_class_changed (class new_class : str) :
  is_word class = true ->
  device_class p = Some new_class ->
  new_class <> [] ->
  root_clear indent root (Some class) new_root ->
  clear_before (indent ++ lit "step take " ++ new_root ++ lit " class ")
    class class = true ->
  patch_line p (take_line indent root (Some class)) =
  Ok (take_line indent new_root (Some new_class)).
Proof.
  intros Hclass Hdc Hnew Hclear Hbefore; unfold patch_line.
  rewrite (reg_bucket_root_recognises indent root (Some class) Hindent Hroot
             Hclass).
  rewrite Hdesired, Hdc.
  pose proof (is_word_inv _ Hclass) as [Hcne _].
  apply is_word_inv in Hroot as [Hne _].
  cbn [group Nat.eqb replace_opt rbind].
  rewrite (root_replaced indent root new_root (Some class) Hne Hclear).
  rewrite (is_word_truthy class Hclass).
  destruct new_class as [|x new_class]; [contradiction|].
  cbn [truthy andb replace_opt].
  rewrite !take_line_class.
  rewrite replace_last; [reflexivity | exact Hcne | exact Hbefore].
Qed.

End TakeLine.

Lemma indent_unique (a b x y : str) (cx cy : char) :
  forallb is_space a = true -> forallb is_space b = true ->
  is_space cx = false -> is_space cy = false ->
  a ++ cx :: x = b ++ cy :: y -> cx :: x = cy :: y.
Proof.
  revert b; induction a as [|c a IH]; intros [|d b] Ha Hb Hx Hy H;
    cbn [app forallb] in *.
  - exact H.
  - inversion H; subst; apply andb_true_iff in Hb as [Hb _]; congruence.
  - inversion H; subst; apply andb_true_iff in Ha as [Ha _]; congruence.
  - inversion H; subst.
    apply andb_true_iff in Ha as [_ Ha]; apply andb_true_iff in Hb as [_ Hb].
    eapply IH; eauto.
Qed.

(** A [step chooseleaf] line is no [step take] line. *)
Lemma chooseleaf_not_take (indent domain : str) :
  forallb is_space indent = true ->
  re_match reg_bucket_root (chooseleaf_line indent domain) = None.
Proof.
  intros Hindent.
  destruct (re_match reg_bucket_root (chooseleaf_line indent domain))
    as [m|] eqn:E; [|reflexivity].
  apply reg_bucket_root_sound in E
    as (indent' & root & class & tail & Hindent' & _ & _ & _ & E & _).
  unfold chooseleaf_line, take_line in E; rewrite <- !app_assoc in E.
  change (lit "step chooseleaf firstn 0 type " ++ domain)
    with (115%N :: lit "tep chooseleaf firstn 0 type " ++ domain) in E.
  match type of E with
  | _ = _ ++ lit "step take " ++ ?r =>
      change (lit "step take " ++ r) with (115%N :: lit "tep take " ++ r) in E
  end.
  apply indent_unique in E; try assumption; try reflexivity.
  vm_compute in E; discriminate E.
Qed.

(** X11: on a [step chooseleaf firstn 0 type] line the failure domain is
    replaced by [bucket_type] and nothing else changes, provided the old
    domain occurs nowhere before its place in the line; a line that already
    has the desired domain is returned as it is. *)
Theorem patch_line_domain (p : params) (indent domain new_domain : str) :
  forallb is_space indent = true ->
  is_word domain = true ->
  bucket_type p = Some new_domain ->
  new_domain = domain \/
  clear_before (indent ++ lit "step chooseleaf firstn 0 type ") domain domain
    = true ->
  patch_line p (chooseleaf_line indent domain) =
  Ok (chooseleaf_line indent new_domain).
Proof.
  intros Hindent Hdomain Hdesired Hclear; unfold patch_line.
  rewrite (chooseleaf_not_take indent domain Hindent).
  rewrite (reg_failure_domain_recognises indent domain Hindent Hdomain).
  rewrite Hdesired; cbn [group Nat.eqb replace_opt]; f_equal.
  destruct Hclear as [-> | Hclear]; [apply replace_same|].
  apply is_word_inv in Hdomain as [Hne _].
  unfold chooseleaf_line; rewrite !app_assoc.
  apply replace_last; [exact Hne | exact Hclear].
Qed.

(** The theorems above at the lines of a decompiled map. *)

Lemma reg_bucket_root_recognises_witness :
  re_match reg_bucket_root
    (take_line (lit TAB) (lit "default") (Some (lit "ssd"))) =
  Some [(2, lit " class ssd"); (3, lit "ssd"); (1, lit "default")].
Proof.
  exact (reg_bucket_root_recognises (lit TAB) (lit "default")
           (Some (lit "ssd")) eq_refl eq_refl eq_refl).
Defined.

Lemma reg_failure_domain_recognises_witness :
  re_match reg_failure_domain (chooseleaf_line (lit TAB) (lit "host")) =
  Some [(1, lit "host")].
Proof.
  exact (reg_failure_domain_recognises (lit TAB) (lit "host") eq_refl eq_refl).
Defined.

Lemma reg_bucket_root_sound_witness :
  exists indent root class tail,
    forallb is_space indent = true /\
    is_word root = true /\
    match class with Some c => is_word c = true | None => True end /\
    (tail = [] \/ tail = [LF]) /\
    lit "  step take default class ssd" = take_line indent root class ++ tail /\
    [(2, lit " class ssd"); (3, lit "ssd"); (1, lit "default")] =
    match class with
    | Some c => [(2, lit " class " ++ c); (3, c); (1, root)]
    | None => [(1, root)]
    end.
Proof.
  exact (reg_bucket_root_sound (lit "  step take default class ssd")
           [(2, lit " class ssd"); (3, lit "ssd"); (1, lit "default")]
           eq_refl).
Defined.

Lemma reg_failure_domain_sound_witness :
  exists indent domain tail,
    forallb is_space indent = true /\
    is_word domain = true /\
    (tail = [] \/ tail = [LF]) /\
    lit "  step chooseleaf firstn 0 type host" =
      chooseleaf_line indent domain ++ tail /\
    [(1, lit "host")] = [(1, domain)].
Proof.
  exact (reg_failure_domain_sound (lit "  step chooseleaf firstn 0 type host")
           [(1, lit "host")] eq_refl).
Defined.

Lemma patch_line_root_witness :
  patch_line (replicated "foo" "rack1" "host" (Some "ssd"%string))
    (take_line (lit TAB) (lit "default") (Some (lit "ssd"))) =
  Ok (take_line (lit TAB) (lit "rack1") (Some (lit "ssd"))).
Proof.
  exact (patch_line_root
           (replicated "foo" "rack1" "host" (Some "ssd"%string))
           (lit TAB) (lit "default") (lit "rack1") eq_refl eq_refl eq_refl
           (Some (lit "ssd")) eq_refl eq_refl
           (or_intror (conj eq_refl eq_refl))).
Defined.

Lemma patch_line_class_added_witness :
  patch_line (replicated "foo" "default" "host" (Some "hdd"%string))
    (take_line (lit TAB) (lit "default") None) =
  Ok (take_line (lit TAB) (lit "default") (Some (lit "hdd"))).
Proof.
  apply (patch_line_class_added
           (replicated "foo" "default" "host" (Some "hdd"%string))
           (lit TAB) (lit "default") (lit "default") eq_refl eq_refl eq_refl
           (lit "hdd") eq_refl).
  - discriminate.
  - left; reflexivity.
Defined.

Lemma patch_line_class_removed_witness :
  patch_line (replicated "foo" "rack1" "host" None)
    (take_line (lit TAB) (lit "default") (Some (lit "ssd"))) =
  Ok (take_line (lit TAB) (lit "rack1") None).
Proof.
  exact (patch_line_class_removed
           (replicated "foo" "rack1" "host" None)
           (lit TAB) (lit "default") (lit "rack1") eq_refl eq_refl eq_refl
           (lit "ssd") eq_refl eq_refl
           (or_intror (conj eq_refl eq_refl)) eq_refl).
Defined.

Lemma patch_line_class_changed_witness :
  patch_line (replicated "foo" "rack1" "host" (Some "hdd"%string))
    (take_line (lit TAB) (lit "default") (Some (lit "ssd"))) =
  Ok (take_line (lit TAB) (lit "rack1") (Some (lit "hdd"))).
Proof.
  apply (patch_line_class_changed
           (replicated "foo" "rack1" "host" (Some "hdd"%string))
           (lit TAB) (lit "default") (lit "rack1") eq_refl eq_refl eq_refl
           (lit "ssd") (lit "hdd") eq_refl eq_refl).
  - discriminate.
  - right; split; reflexivity.
  - reflexivity.
Defined.

Lemma patch_line_domain_witness :
  patch_line (replicated "foo" "default" "rack" None)
    (chooseleaf_line (lit TAB) (lit "host")) =
  Ok (chooseleaf_line (lit TAB) (lit "rack")).
Proof.
  exact (patch_line_domain (replicated "foo" "default" "rack" None)
           (lit TAB) (lit "host") (lit "rack") eq_refl eq_refl eq_refl
           (or_intror eq_refl)).
Defined.

(** ** The inspector stops at the first step that decides *)

(** Steps that match are passed over. *)
Lemma need_changes_steps_app (p : params) (steps more : list json)
    (kinds : list step_kind) :
  Forall2 describes steps kinds ->
  (forall k, In k kinds -> diverges p k = false) ->
  need_changes_steps p (steps ++ more) = need_changes_steps p more.
Proof.
  induction 1 as [|step k steps kinds Hk _ IH]; intros Hsame; [reflexivity|].
  assert (Hrest : need_changes_steps p (steps ++ more) =
                  need_changes_steps p more)
    by (apply IH; intros k' Hk'; apply Hsame; right; exact Hk').
  pose proof (need_changes_steps_kinds p [step] [k]
                (Forall2_cons _ _ Hk (Forall2_nil _))) as Hone.
  cbn [existsb] in Hone; rewrite (Hsame k (or_introl eq_refl)) in Hone.
  cbn [orb] in Hone; clear IH Hsame.
  cbn [app]; cbn [need_changes_steps] in Hone |- *.
  destruct (getitem step (lit "op")) as [op|]; cbn [rbind] in *;
    [|discriminate Hone].
  destruct (json_eq_str op (lit "take")).
  - destruct (getitem step (lit "item_name")) as [item|]; cbn [rbind] in *;
      [|discriminate Hone].
    destruct (json_split item tilde) as [[|r parts]|]; cbn [rbind] in *;
      try discriminate Hone.
    cbv zeta in Hone |- *.
    destruct (negb _ || negb _); [discriminate Hone | exact Hrest].
  - destruct (json_eq_str op (lit "chooseleaf_firstn")); [|exact Hrest].
    destruct (getitem step (lit "type")) as [ty|]; cbn [rbind] in *;
      [|discriminate Hone].
    destruct (negb _); [discriminate Hone | exact Hrest].
Qed.

(** X12: [need_changes] returns at the first step that diverges: with
    matching steps before it, the result is true whatever comes behind, be
    it steps that match or values that are no steps at all. *)
Theorem need_changes_stops_at_divergence (p : params) (rule step : json)
    (steps rest : list json) (kinds : list step_kind) (k : step_kind) :
  getitem rule (lit "steps") = Ok (JList (steps ++ step :: rest)) ->
  Forall2 describes steps kinds ->
  (forall k', In k' kinds -> diverges p k' = false) ->
  describes step k ->
  diverges p k = true ->
  need_changes p rule = Ok true.
Proof.
  intros Hsteps Hkinds Hsame Hstep Hk.
  unfold need_changes; rewrite Hsteps; cbn [rbind iterate].
  rewrite (need_changes_steps_app p steps (step :: rest) kinds Hkinds Hsame).
  pose proof (need_changes_steps_kinds p [step] [k]
                (Forall2_cons _ _ Hstep (Forall2_nil _))) as Hone.
  cbn [existsb] in Hone; rewrite Hk in Hone; cbn [orb] in Hone.
  cbn [need_changes_steps] in Hone |- *.
  destruct (getitem step (lit "op")) as [op|]; cbn [rbind] in *;
    [|discriminate Hone].
  destruct (json_eq_str op (lit "take")).
  - destruct (getitem step (lit "item_name")) as [item|]; cbn [rbind] in *;
      [|discriminate Hone].
    destruct (json_split item tilde) as [[|r parts]|]; cbn [rbind] in *;
      try discriminate Hone.
    cbv zeta in Hone |- *.
    destruct (negb _ || negb _); [reflexivity | discriminate Hone].
  - destruct (json_eq_str op (lit "chooseleaf_firstn")); [|discriminate Hone].
    destruct (getitem step (lit "type")) as [ty|]; cbn [rbind] in *;
      [|discriminate Hone].
    destruct (negb _); [reflexivity | discriminate Hone].
Qed.

Lemma need_changes_stops_at_divergence_witness :
  let p := replicated "foo" "default" "rack" None in
  let steps := [step_take (lit "default")] in
  let rest := [JNull; JInt 7] in
  let rule :=
    dumped_rule "foo" 1 (steps ++ step_chooseleaf (lit "host") :: rest) in
  Forall2 describes steps [TakeStep (lit "default")] /\
  need_changes p rule = Ok true.
Proof.
  intros p steps rest rule.
  assert (Hkinds : Forall2 describes steps [TakeStep (lit "default")])
    by describe_steps.
  split; [exact Hkinds|].
  apply (need_changes_stops_at_divergence p rule (step_chooseleaf (lit "host"))
           steps rest [TakeStep (lit "default")] (ChooseleafStep (lit "host"))
           eq_refl Hkinds).
  - intros k' [<- | []]; reflexivity.
  - eexists; eexists; repeat split; reflexivity.
  - reflexivity.
Defined.

(** X13: a step that lacks the key it is read by, met before any step
    diverges, makes [need_changes] raise [KeyError]: a step without [op],
    a [take] step without [item_name], a [chooseleaf_firstn] step without
    [type]. *)
Theorem need_changes_missing_key (p : params) (rule : json)
    (steps rest : list json) (kinds : list step_kind)
    (d : list (str * json)) :
  getitem rule (lit "steps") = Ok (JList (steps ++ JDict d :: rest)) ->
  Forall2 describes steps kinds ->
  (forall k, In k kinds -> diverges p k = false) ->
  lookup d (lit "op") = None \/
  (lookup d (lit "op") = Some (JStr (lit "take")) /\
   lookup d (lit "item_name") = None) \/
  (lookup d (lit "op") = Some (JStr (lit "chooseleaf_firstn")) /\
   lookup d (lit "type") = None) ->
  need_changes p rule = Raise KeyError.
Proof.
  intros Hsteps Hkinds Hsame Hbad.
  unfold need_changes; rewrite Hsteps; cbn [rbind iterate].
  rewrite (need_changes_steps_app p steps (JDict d :: rest) kinds Hkinds
             Hsame).
  cbn [need_changes_steps getitem].
  destruct Hbad as [Hop | [[Hop Hkey] | [Hop Hkey]]]; rewrite Hop;
    cbn [rbind]; [reflexivity| |].
  - replace (json_eq_str (JStr (lit "take")) (lit "take")) with true
      by reflexivity.
    rewrite Hkey; reflexivity.
  - replace (json_eq_str (JStr (lit "chooseleaf_firstn")) (lit "take"))
      with false by reflexivity.
    replace (json_eq_str (JStr (lit "chooseleaf_firstn"))
               (lit "chooseleaf_firstn")) with true by reflexivity.
    rewrite Hkey; reflexivity.
Qed.

Lemma need_changes_missing_key_witness :
  let p := replicated "foo" "default" "host" None in
  let steps := [step_take (lit "default")] in
  let d := [(lit "op", JStr (lit "chooseleaf_firstn")); (lit "num", JInt 0)] in
  Forall2 describes steps [TakeStep (lit "default")] /\
  need_changes p (dumped_rule "foo" 1 (steps ++ [JDict d])) = Raise KeyError.
Proof.
  intros p steps d.
  assert (Hkinds : Forall2 describes steps [TakeStep (lit "default")])
    by describe_steps.
  split; [exact Hkinds|].
  apply (need_changes_missing_key p (dumped_rule "foo" 1 (steps ++ [JDict d]))
           steps [] [TakeStep (lit "default")] d eq_refl Hkinds).
  - intros k' [<- | []]; reflexivity.
  - right; right; split; reflexivity.
Defined.

(** ** More runs of the module *)

Ltac run_more :=
  cbv beta iota zeta
      delta [bind ret finish lift exit_module exec_command with_tmpdir
             decompile_crushmap install_crushmap read_file write_file
             set_locals world trace rc cmd out err changed].

Section MoreRuns.

Variable W : Type.
Variable C : collaborators W.
Variable p : params.
Variable w : W.

(** In check mode the module executes no command, leaves the world as
    it is and exits with return code 0 and [changed] false. *)
Theorem check_mode_runs_nothing :
  check_mode p = true ->
  main C p w =
    (ExitJson {| r_cmd := None; r_rc := 0; r_stdout := []; r_stderr := [];
                 r_changed := false |},
     {| world := w; trace := [] |}).
Proof. intros H; unfold main, main_body; rewrite H; reflexivity. Qed.

(** X14: when [state] is [present] and the rule dump exits nonzero, the rule
    is created: the creation command is the one command executed after the
    dump, and the run exits with its exit code and output and with
    [changed] true, also when the creation failed. *)
Theorem missing_rule_is_created rc0 out0 err0 w0 rc1 out1 err1 w1 :
  check_mode p = false ->
  state p = lit "present" ->
  run_command C (get_rule C p) w = ((rc0, out0, err0), w0) ->
  rc0 <> 0%Z ->
  run_command C (create_rule C p) w0 = ((rc1, out1, err1), w1) ->
  main C p w =
    (ExitJson {| r_cmd := Some (create_rule C p);
                 r_rc := rc1;
                 r_stdout := rstrip out1 [CR; LF];
                 r_stderr := rstrip err1 [CR; LF];
                 r_changed := true |},
     {| world := w1; trace := [get_rule C p; create_rule C p] |}).
Proof.
  intros Hcheck Hstate Hrun Hrc Hcreate.
  rewrite (main_after_dump W C p w rc0 out0 err0 w0 Hcheck Hrun), Hstate.
  change (str_eqb (lit "present") (lit "present")) with true.
  cbv zeta; unfold present; cbn [rc].
  apply Z.eqb_neq in Hrc; rewrite Hrc; cbn [negb].
  run_more; cbn [app]; rewrite Hcreate; reflexivity.
Qed.

(** X15: when [state] is [absent] and the rule dump succeeds, the rule is
    removed: the removal command is the one command executed after the
    dump, and the run exits with its exit code and output and with
    [changed] true. *)
Theorem existing_rule_is_removed out0 err0 w0 rc1 out1 err1 w1 :
  check_mode p = false ->
  state p = lit "absent" ->
  run_command C (get_rule C p) w = ((0%Z, out0, err0), w0) ->
  run_command C (remove_rule C p) w0 = ((rc1, out1, err1), w1) ->
  main C p w =
    (ExitJson {| r_cmd := Some (remove_rule C p);
                 r_rc := rc1;
                 r_stdout := rstrip out1 [CR; LF];
                 r_stderr := rstrip err1 [CR; LF];
                 r_changed := true |},
     {| world := w1; trace := [get_rule C p; remove_rule C p] |}).
Proof.
  intros Hcheck Hstate Hrun Hremove.
  rewrite (main_after_dump W C p w 0 out0 err0 w0 Hcheck Hrun), Hstate.
  change (str_eqb (lit "absent") (lit "present")) with false.
  change (str_eqb (lit "absent") (lit "absent")) with true.
  cbv zeta; unfold absent; cbn [rc Z.eqb].
  run_more; cbn [app]; rewrite Hremove; reflexivity.
Qed.

(** X16: a rule that exists with the desired type, when that type is not
    [replicated], is never inspected nor patched: whatever its steps are,
    the run exits with [changed] false after the rule dump alone. *)
Theorem other_types_are_left_alone out0 err0 w0 rule code existing :
  check_mode p = false ->
  state p = lit "present" ->
  run_command C (get_rule C p) w = ((0%Z, out0, err0), w0) ->
  json_loads C out0 = Ok rule ->
  getitem rule (lit "type") = Ok code ->
  RULE_TYPES code = Ok existing ->
  rule_type p = Some existing ->
  existing <> lit "replicated" ->
  main C p w =
    (ExitJson {| r_cmd := Some (get_rule C p);
                 r_rc := 0;
                 r_stdout := rstrip out0 [CR; LF];
                 r_stderr := rstrip err0 [CR; LF];
                 r_changed := false |},
     {| world := w0; trace := [get_rule C p] |}).
Proof.
  intros Hcheck Hstate Hrun Hjson Htype Hexisting Hdesired Hother.
  rewrite (main_after_dump W C p w 0 out0 err0 w0 Hcheck Hrun), Hstate.
  change (str_eqb (lit "present") (lit "present")) with true.
  cbv zeta; rewrite (present_existing W C p out0 err0 _ rule code existing
                       Hjson Htype Hexisting).
  rewrite Hdesired.
  replace (opt_eqb (Some existing) (Some existing)) with true
    by (symmetry; apply opt_eqb_eq; reflexivity).
  rewrite (opt_eqb_neq (Some existing) (Some (lit "replicated")))
    by congruence.
  reflexivity.
Qed.

(** X17: when [state] is [present] and the output of a successful rule
    dump does not parse, has no [type], or has a type for which the lookup
    in [RULE_TYPES] raises, the run ends with that exception, uncaught, and
    the rule dump is the only command executed. *)
Theorem unreadable_rule_raises out0 err0 w0 e :
  check_mode p = false ->
  state p = lit "present" ->
  run_command C (get_rule C p) w = ((0%Z, out0, err0), w0) ->
  json_loads C out0 = Raise e \/
  (exists rule,
     json_loads C out0 = Ok rule /\
     (getitem rule (lit "type") = Raise e \/
      exists code,
        getitem rule (lit "type") = Ok code /\ RULE_TYPES code = Raise e)) ->
  main C p w = (Uncaught e, {| world := w0; trace := [get_rule C p] |}).
Proof.
  intros Hcheck Hstate Hrun Hbad.
  rewrite (main_after_dump W C p w 0 out0 err0 w0 Hcheck Hrun), Hstate.
  change (str_eqb (lit "present") (lit "present")) with true.
  cbv zeta; unfold present; cbn [rc out Z.eqb negb].
  destruct Hbad as [Hjson | (rule & Hjson & [Htype | (code & Htype & Hcode)])];
    rewrite Hjson; run_more; [reflexivity| |]; rewrite Htype;
    [reflexivity|]; rewrite Hcode; reflexivity.
Qed.

End MoreRuns.

Section Update.

Variable W : Type.
Variable C : collaborators W.
Variable p : params.
Variable w : W.

(** A replicated rule that exists and differs from the desired one, and a
    map that is dumped and decompiled without error and patched. *)
Variables (out0 err0 : str) (w0 : W) (rule code : json).
Variables (dir1 : str) (w1 : W) (out1 err1 : str) (w2 : W).
Variables (out2 err2 : str) (w3 : W) (crushmap_content patched : str).
Variables (dir2 : str) (w4 w5 : W).
Hypothesis Hcheck : check_mode p = false.
Hypothesis Hstate : state p = lit "present".
Hypothesis Hrule : run_command C (get_rule C p) w = ((0%Z, out0, err0), w0).
Hypothesis Hjson : json_loads C out0 = Ok rule.
Hypothesis Htype : getitem rule (lit "type") = Ok code.
Hypothesis Hexisting : RULE_TYPES code = Ok (lit "replicated").
Hypothesis Hdesired : rule_type p = Some (lit "replicated").
Hypothesis Hneed : need_changes p rule = Ok true.
Hypothesis Hdir1 : mkdtemp C w0 = (dir1, w1).
Hypothesis Hdump :
  run_command C (dump_crush_map C p dir1) w1 = ((0%Z, out1, err1), w2).
Hypothesis Hdecompile :
  run_command C (decompile_map C p dir1) w2 = ((0%Z, out2, err2), w3).
Hypothesis Hread :
  read_text C (path_join dir1 (lit "_crushmap.txt")) w3 = Some crushmap_content.
Hypothesis Hpatch : patch_content p crushmap_content = Ok patched.
Hypothesis Hdir2 : mkdtemp C (cleanup C dir1 w3) = (dir2, w4).
Hypothesis Hwrite :
  write_text C (path_join dir2 (lit "_patched_crushmap.txt")) patched w4 =
  Some w5.

(** The run up to the compilation of the patched map. *)
Lemma main_up_to_compile :
  main C p w =
  match
    bind (bind (exec_command C (compile_map C p dir2)) (fun res =>
            let '(rc, cmd, out, err) := res in
            if negb (Z.eqb rc 0) then ret (rc, cmd, compile_failed ++ out, err)
            else
              bind (exec_command C (install_map C p dir2)) (fun res =>
                let '(rc, cmd, out, err) := res in
                if negb (Z.eqb rc 0)
                then ret (rc, cmd, install_failed ++ out, err)
                else ret res)))
         (fun res => ret (set_locals res true))
         {| world := w5;
            trace := [get_rule C p; dump_crush_map C p dir1;
                      decompile_map C p dir1] |}
  with
  | (inl v, st) =>
      (ExitJson {| r_cmd := Some (cmd v); r_rc := rc v;
                   r_stdout := rstrip (out v) [CR; LF];
                   r_stderr := rstrip (err v) [CR; LF];
                   r_changed := changed v |},
       {| world := cleanup C dir2 (world st); trace := trace st |})
  | (inr o, st) =>
      (o, {| world := cleanup C dir2 (world st); trace := trace st |})
  end.
Proof.
  rewrite (main_after_dump W C p w 0 out0 err0 w0 Hcheck Hrule), Hstate.
  change (str_eqb (lit "present") (lit "present")) with true.
  cbv zeta; rewrite (present_existing W C p out0 err0 _ rule code
                       (lit "replicated") Hjson Htype Hexisting).
  rewrite Hdesired.
  change (opt_eqb (Some (lit "replicated")) (Some (lit "replicated")))
    with true.
  cbn [negb]; rewrite Hneed.
  run_more; rewrite Hdir1; run_more; cbn [app]; rewrite Hdump; run_more.
  cbn [Z.eqb negb app]; rewrite Hdecompile; run_more.
  cbn [Z.eqb negb]; rewrite Hread; run_more.
  cbn [Z.eqb negb]; rewrite Hpatch, Hdir2; run_more; rewrite Hwrite.
  cbn [app].
  destruct (run_command C (compile_map C p dir2) w5) as [[[rc3 out3] err3] w6].
  destruct (Z.eqb rc3 0); cbn [negb]; [|reflexivity].
  destruct (run_command C (install_map C p dir2) w6) as [[[rc4 out4] err4] w7].
  destruct (Z.eqb rc4 0); reflexivity.
Qed.

(** X18: the update of a rule runs five commands in this order: the rule
    dump, the map dump, the decompilation, the compilation and the
    installation; the text compiled is [patch_content] of the decompiled
    text; and the run exits with the installer's exit code and with
    [changed] true, the message being the installer's output, behind
    [installation of the CRUSH map failed with output: ] when it failed. *)
Theorem update_runs_five_commands out3 err3 w6 rc4 out4 err4 w7 :
  run_command C (compile_map C p dir2) w5 = ((0%Z, out3, err3), w6) ->
  run_command C (install_map C p dir2) w6 = ((rc4, out4, err4), w7) ->
  main C p w =
    (ExitJson {| r_cmd := Some (install_map C p dir2);
                 r_rc := rc4;
                 r_stdout :=
                   if Z.eqb rc4 0 then rstrip out4 [CR; LF]
                   else lit "installation of the CRUSH map failed with output: "
                        ++ rstrip out4 [CR; LF];
                 r_stderr := rstrip err4 [CR; LF];
                 r_changed := true |},
     {| world := cleanup C dir2 w7;
        trace := [get_rule C p; dump_crush_map C p dir1;
                  decompile_map C p dir1; compile_map C p dir2;
                  install_map C p dir2] |}).
Proof.
  intros Hcompile Hinstall.
  rewrite main_up_to_compile; run_more; rewrite Hcompile.
  cbn [Z.eqb negb app]; rewrite Hinstall.
  destruct (Z.eqb rc4 0); cbn [negb app]; [reflexivity|].
  change install_failed
    with (lit "installation of the CRUSH map failed with output:" ++ [32%N]).
  rewrite rstrip_failed; reflexivity.
Qed.

(** X19: when the compilation of the patched map exits nonzero, nothing is
    installed: the compilation is the last command executed; the run exits
    with its exit code and the message
    [compilation of the CRUSH map failed with output: ] before its output,
    and with [changed] true although the map of the cluster is as it was. *)
Theorem compile_failure_installs_nothing rc3 out3 err3 w6 :
  run_command C (compile_map C p dir2) w5 = ((rc3, out3, err3), w6) ->
  rc3 <> 0%Z ->
  main C p w =
    (ExitJson {| r_cmd := Some (compile_map C p dir2);
                 r_rc := rc3;
                 r_stdout :=
                   lit "compilation of the CRUSH map failed with output: " ++
                   rstrip out3 [CR; LF];
                 r_stderr := rstrip err3 [CR; LF];
                 r_changed := true |},
     {| world := cleanup C dir2 w6;
        trace := [get_rule C p; dump_crush_map C p dir1;
                  decompile_map C p dir1; compile_map C p dir2] |}) /\
  forall dir, ~ In (install_map C p dir) (trace (snd (main C p w))).
Proof.
  intros Hcompile Hrc.
  match goal with |- ?lhs = ?rhs /\ _ => assert (E : lhs = rhs) end.
  { rewrite main_up_to_compile; run_more; rewrite Hcompile.
    apply Z.eqb_neq in Hrc; rewrite Hrc; cbn [negb app].
    change compile_failed
      with (lit "compilation of the CRUSH map failed with output:" ++ [32%N]).
    rewrite rstrip_failed; reflexivity. }
  split; [exact E|].
  intros dir; rewrite E; cbn [snd trace In].
  intros H; repeat (destruct H as [H | H]; [symmetry in H; revert H|]);
    try contradiction.
  - apply install_map_not_get_rule.
  - apply install_map_not_dump.
  - apply install_map_not_decompile.
  - distinct_commands.
Qed.

End Update.

(** ** The commands of a run *)

Section Traces.

Variable W : Type.
Variable C : collaborators W.
Variable P : command -> Prop.

Lemma appends_ret A (a : A) n : appends P n (ret (W := W) a).
Proof. intros st; exists []; rewrite app_nil_r; cbn; auto with arith. Qed.

Lemma appends_finish A (o : outcome) n :
  appends P n (finish (W := W) (A := A) o).
Proof. intros st; exists []; rewrite app_nil_r; cbn; auto with arith. Qed.

Lemma appends_lift A (r : result A) n : appends P n (lift (W := W) r).
Proof. destruct r; [apply appends_ret | apply appends_finish]. Qed.

Lemma appends_exit A out rc cmd err changed n :
  appends P n (exit_module (W := W) (A := A) out rc cmd err changed).
Proof. apply appends_finish. Qed.

Lemma appends_exec c : P c -> appends P 1 (exec_command C c).
Proof.
  intros Hc st; exists [c]; unfold exec_command.
  destruct (run_command C c (world st)) as [[[rc out] err] w']; cbn; auto.
Qed.

Lemma appends_bind A B (m : M W A) (f : A -> M W B) n k :
  appends P n m -> (forall a, appends P k (f a)) ->
  appends P (n + k) (bind m f).
Proof.
  intros Hm Hf st; unfold bind.
  destruct (Hm st) as (more & Htrace & Hlen & HP).
  destruct (m st) as [[a | o] st'] eqn:E; cbn [snd] in Htrace.
  - destruct (Hf a st') as (more' & Htrace' & Hlen' & HP').
    exists (more ++ more'); rewrite Htrace', Htrace, app_assoc, length_app.
    repeat split; [lia | apply Forall_app; auto].
  - exists more; cbn [snd]; repeat split; [exact Htrace | lia | exact HP].
Qed.

Lemma appends_more A (m : M W A) n k :
  n <= k -> appends P n m -> appends P k m.
Proof.
  intros Hle Hm st; destruct (Hm st) as (more & Htrace & Hlen & HP).
  exists more; repeat split; [exact Htrace | lia | exact HP].
Qed.

Lemma appends_with_tmpdir A (body : str -> M W A) n :
  (forall dir, appends P n (body dir)) -> appends P n (with_tmpdir C body).
Proof.
  intros Hbody st; unfold with_tmpdir.
  destruct (mkdtemp C (world st)) as [dir w'].
  destruct (Hbody dir {| world := w'; trace := trace st |})
    as (more & Htrace & Hlen & HP).
  destruct (body dir _) as [r st']; exists more; auto.
Qed.

Lemma appends_read path n : appends P n (read_file C path).
Proof.
  intros st; exists []; rewrite app_nil_r; unfold read_file.
  destruct (read_text C path (world st)); cbn; auto with arith.
Qed.

Lemma appends_write path text n : appends P n (write_file C path text).
Proof.
  intros st; exists []; rewrite app_nil_r; unfold write_file.
  destruct (write_text C path text (world st)); cbn; auto with arith.
Qed.

End Traces.

Section Bound.

Variable W : Type.
Variable C : collaborators W.
Variable p : params.

Local Abbreviation known := (module_command C p).

Lemma appends_decompile : appends known 2 (decompile_crushmap C p).
Proof.
  apply appends_with_tmpdir; intros dir.
  apply (appends_bind W known _ _ _ _ 1 1).
  - apply appends_exec; do 3 right; exists dir; auto.
  - intros [[[rc cmd] out] err].
    destruct (negb (Z.eqb rc 0)); [apply appends_ret|].
    apply (appends_bind W known _ _ _ _ 1 0).
    + apply appends_exec; do 3 right; exists dir; auto.
    + intros [[[rc' cmd'] out'] err'].
      destruct (negb (Z.eqb rc' 0)); [apply appends_ret|].
      apply (appends_bind W known _ _ _ _ 0 0);
        [apply appends_read | intros; apply appends_ret].
Qed.

Lemma appends_install text : appends known 2 (install_crushmap C p text).
Proof.
  apply appends_with_tmpdir; intros dir.
  apply (appends_bind W known _ _ _ _ 0 2); [apply appends_write|].
  intros _; apply (appends_bind W known _ _ _ _ 1 1).
  - apply appends_exec; do 3 right; exists dir; auto.
  - intros [[[rc cmd] out] err].
    destruct (negb (Z.eqb rc 0)); [apply appends_ret|].
    apply (appends_bind W known _ _ _ _ 1 0).
    + apply appends_exec; do 3 right; exists dir; auto 6.
    + intros [[[rc' cmd'] out'] err'].
      destruct (negb (Z.eqb rc' 0)); apply appends_ret.
Qed.

Lemma appends_present v : appends known 4 (present C p v).
Proof.
  unfold present; destruct (negb (Z.eqb (rc v) 0)).
  - apply (appends_bind W known _ _ _ _ 1 3);
      [apply appends_exec; right; left; reflexivity
      | intros; apply appends_ret].
  - apply (appends_bind W known _ _ _ _ 0 4); [apply appends_lift|].
    intros rule.
    apply (appends_bind W known _ _ _ _ 0 4); [apply appends_lift|].
    intros code.
    apply (appends_bind W known _ _ _ _ 0 4); [apply appends_lift|].
    intros existing.
    destruct (negb (opt_eqb (rule_type p) (Some existing)));
      [apply appends_finish|].
    apply (appends_bind W known _ _ _ _ 0 4).
    + destruct (opt_eqb (rule_type p) (Some (lit "replicated")));
        [apply appends_lift | apply appends_ret].
    + intros [|]; [|apply appends_ret].
      apply (appends_bind W known _ _ _ _ 2 2); [apply appends_decompile|].
      intros [[[rc cmd] out] err].
      destruct (negb (Z.eqb rc 0)); [apply appends_exit|].
      apply (appends_bind W known _ _ _ _ 0 2); [apply appends_lift|].
      intros patched.
      apply (appends_bind W known _ _ _ _ 2 0); [apply appends_install|].
      intros; apply appends_ret.
Qed.

Lemma appends_absent v : appends known 1 (absent C p v).
Proof.
  unfold absent; destruct (Z.eqb (rc v) 0); [|apply appends_ret].
  apply (appends_bind W known _ _ _ _ 1 0);
    [apply appends_exec; right; right; left; reflexivity
    | intros; apply appends_ret].
Qed.

(** X20: whatever the cluster answers, a run outside check mode begins with
    the rule dump and executes at most four commands after it, each of them
    one of the module's own: creation, removal, map dump, decompilation,
    compilation, installation.  In check mode no command is executed. *)
Theorem main_runs_known_commands (w : W) :
  if check_mode p then trace (snd (main C p w)) = []
  else exists more,
         trace (snd (main C p w)) = get_rule C p :: more /\
         length more <= 4 /\ Forall (module_command C p) more.
Proof.
  unfold main, main_body; destruct (check_mode p); [reflexivity|].
  unfold bind at 1, exec_command at 1; cbn [world trace app].
  destruct (run_command C (get_rule C p) w) as [[[rc0 out0] err0] w0].
  match goal with
  | |- context [bind ?m ?f ?st] =>
      assert (H : appends known 4 (bind m f))
  end.
  { apply (appends_bind W known _ _ _ _ 4 0).
    - destruct (str_eqb (state p) (lit "present")); [apply appends_present|].
      destruct (str_eqb (state p) (lit "absent"));
        [apply (appends_more W known _ _ 1 4);
           [auto with arith | apply appends_absent]
        | apply appends_ret].
    - intros v; apply appends_exit. }
  match goal with
  | |- context [bind ?m ?f ?st] =>
      destruct (H st) as (more & Htrace & Hlen & Hknown);
      destruct (bind m f st) as [[o | o] st']
  end; cbn [snd trace app] in *; exists more; auto.
Qed.

End Bound.

(** ** What is reported when the cluster was changed *)


Section Changed.

Variable W : Type.
Variable C : collaborators W.
Variable p : params.





End Changed.


Section Reported.

Variable W : Type.
Variable C : collaborators W.
Variable p : params.
Variable w : W.


End Reported.

(** The runs above on the scripted cluster. *)

Lemma check_mode_runs_nothing_witness :
  main scripted check_foo [(0%Z, lit "{rule}", [])] =
    (ExitJson {| r_cmd := None; r_rc := 0; r_stdout := []; r_stderr := [];
                 r_changed := false |},
     {| world := [(0%Z, lit "{rule}", [])]; trace := [] |}).
Proof.
  exact (check_mode_runs_nothing script scripted check_foo
           [(0%Z, lit "{rule}", [])] eq_refl).
Defined.

Lemma missing_rule_is_created_witness :
  let p := replicated "foo" "default" "host" None in
  let w := [(2%Z, [], no_such_rule); (0%Z, [], [])] in
  main scripted p w =
    (ExitJson {| r_cmd := Some (create_rule scripted p);
                 r_rc := 0;
                 r_stdout := [];
                 r_stderr := [];
                 r_changed := true |},
     {| world := [];
        trace := [get_rule scripted p; create_rule scripted p] |}).
Proof.
  intros p w.
  exact (missing_rule_is_created script scripted p w 2 [] no_such_rule
           [(0%Z, [], [])] 0 [] [] [] eq_refl eq_refl eq_refl
           (fun H => Z.neq_sym _ _ (Z.lt_neq 0 2 eq_refl) H) eq_refl).
Defined.

Lemma existing_rule_is_removed_witness :
  let w := [(0%Z, lit "{rule}", []); (0%Z, [], [])] in
  main scripted absent_foo w =
    (ExitJson {| r_cmd := Some (remove_rule scripted absent_foo);
                 r_rc := 0;
                 r_stdout := [];
                 r_stderr := [];
                 r_changed := true |},
     {| world := [];
        trace := [get_rule scripted absent_foo;
                  remove_rule scripted absent_foo] |}).
Proof.
  intros w.
  exact (existing_rule_is_removed script scripted absent_foo w (lit "{rule}")
           [] [(0%Z, [], [])] 0 [] [] [] eq_refl eq_refl eq_refl eq_refl).
Defined.

Lemma other_types_are_left_alone_witness :
  let C := scripted_rule (dumped_rule "foo" 3 [JNull]) in
  let w := [(0%Z, lit "{rule}", [])] in
  main C erasure_foo w =
    (ExitJson {| r_cmd := Some (get_rule C erasure_foo);
                 r_rc := 0;
                 r_stdout := lit "{rule}";
                 r_stderr := [];
                 r_changed := false |},
     {| world := []; trace := [get_rule C erasure_foo] |}).
Proof.
  intros C w.
  apply (other_types_are_left_alone script C erasure_foo w (lit "{rule}") []
           [] (dumped_rule "foo" 3 [JNull]) (JInt 3) (lit "erasure")
           eq_refl eq_refl eq_refl eq_refl eq_refl eq_refl eq_refl).
  discriminate.
Defined.

Lemma unreadable_rule_raises_witness :
  let p := replicated "foo" "default" "host" None in
  let C := scripted_rule (dumped_rule "foo" 4 []) in
  let w := [(0%Z, lit "{rule}", [])] in
  RULE_TYPES (JInt 4) = Raise KeyError /\
  main C p w = (Uncaught KeyError, {| world := []; trace := [get_rule C p] |}).
Proof.
  intros p C w; split; [reflexivity|].
  apply (unreadable_rule_raises script C p w (lit "{rule}") [] [] KeyError
           eq_refl eq_refl eq_refl).
  right; exists (dumped_rule "foo" 4 []); split; [reflexivity|].
  right; exists (JInt 4); split; reflexivity.
Defined.

Lemma update_runs_five_commands_witness :
  let p := replicated "foo" "default" "rack" None in
  let w := [(0%Z, lit "{rule}", []); (0%Z, [], []); (0%Z, [], []);
            (0%Z, [], []); (0%Z, lit "set crush map", [])] in
  let dir := lit "/tmp/tmpk3x" in
  main scripted p w =
    (ExitJson {| r_cmd := Some (install_map scripted p dir);
                 r_rc := 0;
                 r_stdout := lit "set crush map";
                 r_stderr := [];
                 r_changed := true |},
     {| world := [];
        trace := [get_rule scripted p; dump_crush_map scripted p dir;
                  decompile_map scripted p dir; compile_map scripted p dir;
                  install_map scripted p dir] |}).
Proof.
  intros p w dir.
  exact (update_runs_five_commands script scripted p w
           (lit "{rule}") [] _ rule_default_host (JInt 1)
           dir _ [] [] _ [] [] _ map_foo
           (lines_of ["# rules";
                      "rule foo {";
                      TAB ++ "step take default";
                      TAB ++ "step chooseleaf firstn 0 type rack";
                      TAB ++ "step emit";
                      "}";
                      "# end crush map"]%string)
           dir _ _
           eq_refl eq_refl eq_refl eq_refl eq_refl eq_refl eq_refl eq_refl
           eq_refl eq_refl eq_refl eq_refl eq_refl eq_refl eq_refl
           [] [] _ 0 (lit "set crush map") [] [] eq_refl eq_refl).
Defined.

Lemma compile_failure_installs_nothing_witness :
  let p := replicated "foo" "default" "rack" None in
  let w := [(0%Z, lit "{rule}", []); (0%Z, [], []); (0%Z, [], []);
            (1%Z, [], lit "parse error")] in
  let dir := lit "/tmp/tmpk3x" in
  main scripted p w =
    (ExitJson {| r_cmd := Some (compile_map scripted p dir);
                 r_rc := 1;
                 r_stdout :=
                   lit "compilation of the CRUSH map failed with output: ";
                 r_stderr := lit "parse error";
                 r_changed := true |},
     {| world := [];
        trace := [get_rule scripted p; dump_crush_map scripted p dir;
                  decompile_map scripted p dir; compile_map scripted p dir] |}).
Proof.
  intros p w dir.
  exact (proj1 (compile_failure_installs_nothing script scripted p w
           (lit "{rule}") [] _ rule_default_host (JInt 1)
           dir _ [] [] _ [] [] _ map_foo
           (lines_of ["# rules";
                      "rule foo {";
                      TAB ++ "step take default";
                      TAB ++ "step chooseleaf firstn 0 type rack";
                      TAB ++ "step emit";
                      "}";
                      "# end crush map"]%string)
           dir _ _
           eq_refl eq_refl eq_refl eq_refl eq_refl eq_refl eq_refl eq_refl
           eq_refl eq_refl eq_refl eq_refl eq_refl eq_refl eq_refl
           1 [] (lit "parse error") [] eq_refl
           (fun H => Z.neq_sym _ _ (Z.lt_neq 0 1 eq_refl) H))).
Defined.


(** ** The creation command and the exit *)








